(** * Sierpinski-Triangle-Simulator: the chaos game, the viewport and the
      animation controller of [App]

    The component is embedded at two levels.

    The control structure (the state of the component, its event handlers,
    the timers, the random draws, what is painted) is embedded with the
    arithmetic of the source read over the real numbers, the data model of
    the specification ("a pair of real-valued plane coordinates"): in this
    reading a sum, a product or a quotient is the exact one.

    The arithmetic kernel (the membership test, the midpoint step, the
    barycentric sample, the seed search and the zoom) is embedded a second
    time in module [B64], over binary64 numbers, operation by operation as
    the source evaluates it.  What depends on rounding, underflow or NaN is
    stated and decided there.

    [Math.random] is an oracle: a sequence of draws consumed left to right.
    React state setters are read as immediate updates of one application
    state, a render of the component is an event of its own, and
    [window.setTimeout] is an explicit queue of pending callbacks. *)

From Stdlib Require PrimFloat.
From Stdlib Require Import String.
From Stdlib Require Import Reals Lra Psatz ZArith Lia List Bool.
Import ListNotations.

Open Scope R_scope.

(** * Part I: the program *)

(** ** Numbers *)

(** Comparison operators of the source, as booleans. *)
Definition ltb (a b : R) : bool := if Rlt_dec a b then true else false.
Definition leb (a b : R) : bool := if Rle_dec a b then true else false.
Definition gtb (a b : R) : bool := ltb b a.
Definition geb (a b : R) : bool := leb b a.

(** [Math.sqrt(0.75)], the height of the triangle, as a real number
    ([B64.V2] has the binary64 value). *)
Definition sqrt075 : R := sqrt 0.75.

(** [Math.floor] of a real number, integer valued. *)
Definition Math_floor (r : R) : Z := Int_part r.

(** [Math.pow(b, e)] for a positive base, as a real number: always
    positive.  The binary64 result underflows to 0 and overflows to
    [Infinity]; [B64.zoomAt] takes the binary64 result as an argument. *)
Definition Math_pow (b e : R) : R := Rpower b e.

(** [Math.min]. *)
Definition Math_min (a b : R) : R := Rmin a b.

(** ** Geometry (types.ts and the constants of the component) *)

(** [Point] of types.ts. *)
Record Point : Type := mkPoint { x : R; y : R }.

(** [Viewport] of types.ts; its fields [x] and [y] are [vx] and [vy] here,
    the names [x] and [y] being taken by [Point]. *)
Record Viewport : Type := mkViewport { vx : R; vy : R; scale : R }.

Definition Triple : Type := (Point * Point * Point)%type.

Definition V0 : Point := mkPoint 0 0.
Definition V1 : Point := mkPoint 1 0.
Definition V2 : Point := mkPoint 0.5 sqrt075.

Definition VERTICES : Triple := (V0, V1, V2).

(** [VERTICES[i]]; an index outside 0..2 reads [undefined]. *)
Definition vertexAt (i : Z) : option Point :=
  match i with
  | 0%Z => Some V0
  | 1%Z => Some V1
  | 2%Z => Some V2
  | _ => None
  end.

Definition INITIAL_VIEWPORT_PADDING : R := 1.1.

Definition getInitialViewport (width height : R) : Viewport :=
  let triangleWidth := 1 in
  let triangleHeight := sqrt075 in
  let triangleCenterX := 0.5 in
  let triangleCenterY := triangleHeight / 2 in
  let scaleX := width / (triangleWidth * INITIAL_VIEWPORT_PADDING) in
  let scaleY := height / (triangleHeight * INITIAL_VIEWPORT_PADDING) in
  let scale := Math_min scaleX scaleY in
  mkViewport triangleCenterX triangleCenterY scale.

(** The three edge cross products of [isPointInTriangle], over the reals;
    [B64.isPointInTriangle] is the test on binary64 numbers, which can
    differ from this one at points within rounding distance of an edge. *)
Definition d1 (p : Point) (vs : Triple) : R :=
  let '(v1, v2, v3) := vs in
  (x p - x v2) * (y v1 - y v2) - (x v1 - x v2) * (y p - y v2).
Definition d2 (p : Point) (vs : Triple) : R :=
  let '(v1, v2, v3) := vs in
  (x p - x v3) * (y v2 - y v3) - (x v2 - x v3) * (y p - y v3).
Definition d3 (p : Point) (vs : Triple) : R :=
  let '(v1, v2, v3) := vs in
  (x p - x v1) * (y v3 - y v1) - (x v3 - x v1) * (y p - y v1).

Definition has_neg (p : Point) (vs : Triple) : bool :=
  ltb (d1 p vs) 0 || ltb (d2 p vs) 0 || ltb (d3 p vs) 0.
Definition has_pos (p : Point) (vs : Triple) : bool :=
  gtb (d1 p vs) 0 || gtb (d2 p vs) 0 || gtb (d3 p vs) 0.

Definition isPointInTriangle (p : Point) (vs : Triple) : bool :=
  negb (has_neg p vs && has_pos p vs).

(** ** Random numbers *)

(** [Math.random]: the draws of a run, and how many were consumed. *)
Record Rng : Type := mkRng { draws : nat -> R; pos : nat }.

(** Computations that draw random numbers. *)
Definition Rand (A : Type) : Type := Rng -> A * Rng.

Definition ret {A : Type} (a : A) : Rand A := fun g => (a, g).

Definition bind {A B : Type} (m : Rand A) (k : A -> Rand B) : Rand B :=
  fun g => let (a, g') := m g in k a g'.

Notation "v <- m ;; k" := (bind m (fun v => k))
  (at level 61, m at next level, right associativity).

Definition Math_random : Rand R :=
  fun g => (draws g (pos g), mkRng (draws g) (S (pos g))).

(** The two coefficients of [getInitialPoint] after the reflection; the
    sample in exact arithmetic ([B64.getInitialPoint] rounds). *)
Definition reflect (s t : R) : R * R :=
  if gtb (s + t) 1 then (1 - s, 1 - t) else (s, t).

Definition barycentric (s t : R) : Point :=
  mkPoint (x V0 * (1 - s - t) + x V1 * s + x V2 * t)
          (y V0 * (1 - s - t) + y V1 * s + y V2 * t).

Definition getInitialPoint : Rand Point :=
  s <- Math_random ;;
  t <- Math_random ;;
  let '(s, t) := reflect s t in
  ret (barycentric s t).

(** One iteration of the chaos game, the body shared by the loop of
    [generateInstantly] and by [step] of [animateGeneration]: the target
    vertex and the next point; [None] is the [TypeError] of reading [.x]
    of [undefined].  The midpoint and the product [r * 3] are exact here
    and rounded in [B64.midpoint] and [B64.chaosStep]. *)
Definition midpoint (current targetVertex : Point) : Point :=
  mkPoint ((x current + x targetVertex) / 2)
          ((y current + y targetVertex) / 2).

Definition chaosStep (current : Point) : Rand (option (Point * Point)) :=
  r <- Math_random ;;
  match vertexAt (Math_floor (r * 3)) with
  | Some targetVertex =>
      ret (Some (targetVertex, midpoint current targetVertex))
  | None => ret None
  end.

(** ** The state of the component *)

Record AnimationStep : Type := mkAnimationStep {
  currentPoint : Point;
  targetVertex : Point;
  newPoint : Point
}.

Record HighlightedVertex : Type := mkHighlightedVertex {
  vertex : Point;
  life : Z
}.

Inductive PointsPerClick : Type := P100 | P1000 | P10000.

Definition pointsValue (n : PointsPerClick) : nat :=
  match n with
  | P100 => 100
  | P1000 => 10 * 100
  | P10000 => 100 * 100
  end.

(** The canvas element: its layout rectangle ([getBoundingClientRect]) and
    its bitmap size ([canvas.width], [canvas.height]). *)
Record Canvas : Type := mkCanvas {
  rectLeft : R;
  rectTop : R;
  rectWidth : R;
  rectHeight : R;
  width : R;
  height : R
}.

(** A pending [window.setTimeout(() => step(count + 1), 100)]: its handle,
    its delay in milliseconds, the [count] the callback will pass to [step],
    and the value of the captured variable [localCurrent]; only the run's
    single live callback writes that variable. *)
Record Timer : Type := mkTimer {
  timerId : nat;
  timerDelay : R;
  timerCount : nat;
  timerLocal : Point
}.

Record AppState : Type := mkAppState {
  canvas : option Canvas;                      (* canvasRef.current *)
  points : list Point;
  currentPointRef : Point;
  viewport : Viewport;
  isDragging : bool;
  dragStartRef : Point;
  pointsPerClick : PointsPerClick;
  isAnimationMode : bool;
  isGenerating : bool;
  animationStep : option AnimationStep;
  highlightedVertices : list HighlightedVertex;
  animationTimeoutRef : option nat;
  timers : list Timer;                         (* pending timeouts *)
  nextTimerId : nat;                           (* the next handle *)
  rng : Rng;
  setPointsCalls : nat                         (* ghost: calls of setPoints *)
}.

Definition setViewport (v : Viewport) (st : AppState) : AppState :=
  mkAppState (canvas st) (points st) (currentPointRef st) v
    (isDragging st) (dragStartRef st) (pointsPerClick st)
    (isAnimationMode st) (isGenerating st) (animationStep st)
    (highlightedVertices st) (animationTimeoutRef st) (timers st)
    (nextTimerId st) (rng st) (setPointsCalls st).

Definition setPoints (ps : list Point) (st : AppState) : AppState :=
  mkAppState (canvas st) ps (currentPointRef st) (viewport st)
    (isDragging st) (dragStartRef st) (pointsPerClick st)
    (isAnimationMode st) (isGenerating st) (animationStep st)
    (highlightedVertices st) (animationTimeoutRef st) (timers st)
    (nextTimerId st) (rng st) (S (setPointsCalls st)).

Definition setCurrentPointRef (p : Point) (st : AppState) : AppState :=
  mkAppState (canvas st) (points st) p (viewport st)
    (isDragging st) (dragStartRef st) (pointsPerClick st)
    (isAnimationMode st) (isGenerating st) (animationStep st)
    (highlightedVertices st) (animationTimeoutRef st) (timers st)
    (nextTimerId st) (rng st) (setPointsCalls st).

Definition setIsDragging (b : bool) (st : AppState) : AppState :=
  mkAppState (canvas st) (points st) (currentPointRef st) (viewport st)
    b (dragStartRef st) (pointsPerClick st)
    (isAnimationMode st) (isGenerating st) (animationStep st)
    (highlightedVertices st) (animationTimeoutRef st) (timers st)
    (nextTimerId st) (rng st) (setPointsCalls st).

Definition setDragStartRef (p : Point) (st : AppState) : AppState :=
  mkAppState (canvas st) (points st) (currentPointRef st) (viewport st)
    (isDragging st) p (pointsPerClick st)
    (isAnimationMode st) (isGenerating st) (animationStep st)
    (highlightedVertices st) (animationTimeoutRef st) (timers st)
    (nextTimerId st) (rng st) (setPointsCalls st).

Definition setPointsPerClick (n : PointsPerClick) (st : AppState) : AppState :=
  mkAppState (canvas st) (points st) (currentPointRef st) (viewport st)
    (isDragging st) (dragStartRef st) n
    (isAnimationMode st) (isGenerating st) (animationStep st)
    (highlightedVertices st) (animationTimeoutRef st) (timers st)
    (nextTimerId st) (rng st) (setPointsCalls st).

Definition setIsAnimationMode (b : bool) (st : AppState) : AppState :=
  mkAppState (canvas st) (points st) (currentPointRef st) (viewport st)
    (isDragging st) (dragStartRef st) (pointsPerClick st)
    b (isGenerating st) (animationStep st)
    (highlightedVertices st) (animationTimeoutRef st) (timers st)
    (nextTimerId st) (rng st) (setPointsCalls st).

Definition setIsGenerating (b : bool) (st : AppState) : AppState :=
  mkAppState (canvas st) (points st) (currentPointRef st) (viewport st)
    (isDragging st) (dragStartRef st) (pointsPerClick st)
    (isAnimationMode st) b (animationStep st)
    (highlightedVertices st) (animationTimeoutRef st) (timers st)
    (nextTimerId st) (rng st) (setPointsCalls st).

Definition setAnimationStep (a : option AnimationStep) (st : AppState)
  : AppState :=
  mkAppState (canvas st) (points st) (currentPointRef st) (viewport st)
    (isDragging st) (dragStartRef st) (pointsPerClick st)
    (isAnimationMode st) (isGenerating st) a
    (highlightedVertices st) (animationTimeoutRef st) (timers st)
    (nextTimerId st) (rng st) (setPointsCalls st).

Definition setHighlightedVertices (hs : list HighlightedVertex)
  (st : AppState) : AppState :=
  mkAppState (canvas st) (points st) (currentPointRef st) (viewport st)
    (isDragging st) (dragStartRef st) (pointsPerClick st)
    (isAnimationMode st) (isGenerating st) (animationStep st)
    hs (animationTimeoutRef st) (timers st)
    (nextTimerId st) (rng st) (setPointsCalls st).

Definition setAnimationTimeoutRef (r : option nat) (st : AppState)
  : AppState :=
  mkAppState (canvas st) (points st) (currentPointRef st) (viewport st)
    (isDragging st) (dragStartRef st) (pointsPerClick st)
    (isAnimationMode st) (isGenerating st) (animationStep st)
    (highlightedVertices st) r (timers st)
    (nextTimerId st) (rng st) (setPointsCalls st).

Definition setTimers (ts : list Timer) (n : nat) (st : AppState) : AppState :=
  mkAppState (canvas st) (points st) (currentPointRef st) (viewport st)
    (isDragging st) (dragStartRef st) (pointsPerClick st)
    (isAnimationMode st) (isGenerating st) (animationStep st)
    (highlightedVertices st) (animationTimeoutRef st) ts
    n (rng st) (setPointsCalls st).

Definition setRng (g : Rng) (st : AppState) : AppState :=
  mkAppState (canvas st) (points st) (currentPointRef st) (viewport st)
    (isDragging st) (dragStartRef st) (pointsPerClick st)
    (isAnimationMode st) (isGenerating st) (animationStep st)
    (highlightedVertices st) (animationTimeoutRef st) (timers st)
    (nextTimerId st) g (setPointsCalls st).

Definition setCanvas (c : option Canvas) (st : AppState) : AppState :=
  mkAppState c (points st) (currentPointRef st) (viewport st)
    (isDragging st) (dragStartRef st) (pointsPerClick st)
    (isAnimationMode st) (isGenerating st) (animationStep st)
    (highlightedVertices st) (animationTimeoutRef st) (timers st)
    (nextTimerId st) (rng st) (setPointsCalls st).

(** [window.setTimeout(cb, delay)]: queues the callback, returns its
    handle. *)
Definition setTimeout (count : nat) (localCurrent : Point) (delay : R)
  (st : AppState) : nat * AppState :=
  let id := nextTimerId st in
  (id, setTimers (timers st ++ [mkTimer id delay count localCurrent])
         (S id) st).

(** [clearTimeout(id)]. *)
Definition clearTimeout (id : nat) (st : AppState) : AppState :=
  setTimers (filter (fun t => negb (Nat.eqb (timerId t) id)) (timers st))
    (nextTimerId st) st.

(** ** Viewport operations *)

(** The body of [handleWheel] after the mouse position is known: the world
    point under the cursor, the new scale and the new centre, in exact
    arithmetic ([B64.zoomAt] is the binary64 evaluation).  The source has no
    test of the new scale. *)
Definition zoomAt (mouseX mouseY deltaY : R) (c : Canvas) (v : Viewport)
  : Viewport :=
  let mouseWorldX := (mouseX - width c / 2) / scale v + vx v in
  let mouseWorldY := (- (mouseY - height c / 2)) / scale v + vy v in
  let zoomFactor := Math_pow 0.998 deltaY in
  let newScale := scale v * zoomFactor in
  let newX := mouseWorldX - (mouseX - width c / 2) / newScale in
  let newY := mouseWorldY + (mouseY - height c / 2) / newScale in
  mkViewport newX newY newScale.

(** [handleWheel] as the render that created it left it: the handler reads
    the constant [viewport] of that render, [rendered], and installs a
    value (not an updater, unlike [handleMouseMove]). *)
Definition handleWheelFrom (rendered : Viewport) (clientX clientY deltaY : R)
  (st : AppState) : AppState :=
  match canvas st with
  | None => st
  | Some c =>
      let mouseX := clientX - rectLeft c in
      let mouseY := clientY - rectTop c in
      setViewport (zoomAt mouseX mouseY deltaY c rendered) st
  end.

(** [handleWheel] of the render that followed the last update of the
    viewport: the viewport it reads is the one of the state. *)
Definition handleWheel (clientX clientY deltaY : R) (st : AppState)
  : AppState :=
  match canvas st with
  | None => st
  | Some c =>
      let mouseX := clientX - rectLeft c in
      let mouseY := clientY - rectTop c in
      setViewport (zoomAt mouseX mouseY deltaY c (viewport st)) st
  end.

(** The screen-to-world map that [handleWheel] applies to the cursor. *)
Definition toWorld (mouseX mouseY : R) (c : Canvas) (v : Viewport) : Point :=
  mkPoint ((mouseX - width c / 2) / scale v + vx v)
          ((- (mouseY - height c / 2)) / scale v + vy v).

(** The updater that [handleMouseMove] passes to [setViewport]. *)
Definition pan (dx dy : R) (prev : Viewport) : Viewport :=
  mkViewport (vx prev - dx / scale prev) (vy prev + dy / scale prev)
    (scale prev).

Definition handleMouseDown (clientX clientY : R) (st : AppState) : AppState :=
  setDragStartRef (mkPoint clientX clientY) (setIsDragging true st).

Definition handleMouseUp (st : AppState) : AppState := setIsDragging false st.

Definition handleMouseLeave (st : AppState) : AppState :=
  setIsDragging false st.

Definition handleMouseMove (clientX clientY : R) (st : AppState) : AppState :=
  if negb (isDragging st) then st
  else
    let dx := clientX - x (dragStartRef st) in
    let dy := clientY - y (dragStartRef st) in
    let st := setDragStartRef (mkPoint clientX clientY) st in
    setViewport (pan dx dy (viewport st)) st.

(** A number truncated towards zero. *)
Definition truncate (r : R) : Z :=
  if ltb r 0 then (- Int_part (- r))%Z else Int_part r.

(** What [canvas.width] or [canvas.height] holds after a number is assigned
    to it.  The two are unsigned long attributes: the number is truncated
    towards zero and wrapped modulo 2^32, and a result above 2^31 - 1 is
    replaced by the default of the attribute. *)
Definition bitmapSize (default : Z) (r : R) : R :=
  let n := (truncate r mod 2 ^ 32)%Z in
  IZR (if (n <=? 2147483647)%Z then n else default).

(** [setupCanvas] of the resize effect: the bitmap gets the truncated
    layout size (the defaults are 300 and 150), the viewport is computed
    from the layout size itself. *)
Definition setupCanvas (w h : R) (c : Canvas) (st : AppState) : AppState :=
  let c' := mkCanvas (rectLeft c) (rectTop c) (rectWidth c) (rectHeight c)
              (bitmapSize 300 w) (bitmapSize 150 h) in
  let st := setCanvas (Some c') st in
  if (length (points st) =? 0)%nat
  then setViewport (getInitialViewport w h) st
  else setViewport (viewport st) st.

(** The layout rectangle of the canvas changes and the [ResizeObserver]
    callback runs (the initial set-up of the effect is the same code). *)
Definition onResize (left top w h : R) (st : AppState) : AppState :=
  match canvas st with
  | None => st
  | Some c =>
      let c := mkCanvas left top w h (width c) (height c) in
      let st := setCanvas (Some c) st in
      if gtb w 0 && gtb h 0 then setupCanvas w h c st else st
  end.

(** ** Chaos game engine *)

Definition isPointInView (xMin xMax yMin yMax : R) (p : Point) : bool :=
  geb (x p) xMin && leb (x p) xMax && geb (y p) yMin && leb (y p) yMax.

(** The [for] loop of [findSeedPoint] with [n] iterations left: the first
    accepted candidate, or [None] when the loop runs out. *)
Fixpoint seedLoop (n : nat) (xMin yMin worldWidth worldHeight : R)
  : Rand (option Point) :=
  match n with
  | O => ret None
  | S n' =>
      rx <- Math_random ;;
      ry <- Math_random ;;
      let randomPointInView :=
        mkPoint (xMin + rx * worldWidth) (yMin + ry * worldHeight) in
      if isPointInTriangle randomPointInView VERTICES
      then ret (Some randomPointInView)
      else seedLoop n' xMin yMin worldWidth worldHeight
  end.

(** Whether [findSeedPoint] looks for a fresh seed. *)
Definition needsSeed (current : Point) (c : Canvas) (st : AppState) : bool :=
  let worldWidth := width c / scale (viewport st) in
  let worldHeight := height c / scale (viewport st) in
  let xMin := vx (viewport st) - worldWidth / 2 in
  let xMax := vx (viewport st) + worldWidth / 2 in
  let yMin := vy (viewport st) - worldHeight / 2 in
  let yMax := vy (viewport st) + worldHeight / 2 in
  (length (points st) =? 0)%nat
  || negb (isPointInView xMin xMax yMin yMax current).

Definition findSeedPoint (current : Point) (st : AppState) : Rand Point :=
  match canvas st with
  | None => getInitialPoint
  | Some c =>
      let worldWidth := width c / scale (viewport st) in
      let worldHeight := height c / scale (viewport st) in
      let xMin := vx (viewport st) - worldWidth / 2 in
      let yMin := vy (viewport st) - worldHeight / 2 in
      if needsSeed current c st then
        r <- seedLoop 100 xMin yMin worldWidth worldHeight ;;
        match r with
        | Some p => ret p
        | None => getInitialPoint (* Fallback *)
        end
      else ret current
  end.

(** The [for] loop of [generateInstantly] with [n] iterations left. *)
Fixpoint generateLoop (n : nat) (current : Point) (newPoints : list Point)
  : Rand (option (Point * list Point)) :=
  match n with
  | O => ret (Some (current, newPoints))
  | S n' =>
      r <- chaosStep current ;;
      match r with
      | None => ret None
      | Some (_, nextPoint) =>
          generateLoop n' nextPoint (newPoints ++ [nextPoint])
      end
  end.

Definition generateInstantly (st : AppState) : option AppState :=
  let (current, g) := findSeedPoint (currentPointRef st) st (rng st) in
  let (r, g') :=
    generateLoop (pointsValue (pointsPerClick st)) current [] g in
  match r with
  | None => None
  | Some (current, newPoints) =>
      let st := setRng g' st in
      let st := setCurrentPointRef current st in
      Some (setPoints (points st ++ newPoints) st)
  end.

(** ** Animation controller *)

(** The updater that [step] passes to [setHighlightedVertices]. *)
Definition updateHighlights (target : Point) (prev : list HighlightedVertex)
  : list HighlightedVertex :=
  filter (fun h => (0 <? life h)%Z)
    (map (fun h => mkHighlightedVertex (vertex h) (life h - 1))
       (mkHighlightedVertex target 5 :: prev)).

(** [step(count)] of [animateGeneration], with the current value of the
    captured [localCurrent]. *)
Definition step (count : nat) (localCurrent : Point) (st : AppState)
  : option AppState :=
  if (100 <=? count)%nat then
    let st := setIsGenerating false st in
    let st := setAnimationStep None st in
    let st := setHighlightedVertices [] st in
    Some (setCurrentPointRef localCurrent st)
  else
    let (r, g) := chaosStep localCurrent (rng st) in
    match r with
    | None => None
    | Some (target, nextPoint) =>
        let st := setRng g st in
        let st := setAnimationStep
                    (Some (mkAnimationStep localCurrent target nextPoint))
                    st in
        let st := setHighlightedVertices
                    (updateHighlights target (highlightedVertices st)) st in
        let st := setPoints (points st ++ [nextPoint]) st in
        let (id, st) := setTimeout (count + 1) nextPoint 100 st in
        Some (setAnimationTimeoutRef (Some id) st)
    end.

Definition animateGeneration (st : AppState) : option AppState :=
  let st := setIsGenerating true st in
  let st := setAnimationStep None st in
  let (localCurrent, g) := findSeedPoint (currentPointRef st) st (rng st) in
  step 0 localCurrent (setRng g st).

Definition handleGeneratePoints (st : AppState) : option AppState :=
  if isAnimationMode st then animateGeneration st else generateInstantly st.

(** A pending timeout fires: it leaves the queue and its callback runs.
    [None] when no timeout with this handle is pending. *)
Definition fireTimer (id : nat) (st : AppState) : option AppState :=
  match find (fun t => Nat.eqb (timerId t) id) (timers st) with
  | None => None
  | Some t => step (timerCount t) (timerLocal t) (clearTimeout id st)
  end.

(** The first statement of [reset]: the pending timeout is cleared when the
    handle is truthy. *)
Definition cancel (st : AppState) : AppState :=
  match animationTimeoutRef st with
  | Some id =>
      if Nat.eqb id 0 then st
      else setAnimationTimeoutRef None (clearTimeout id st)
  | None => st
  end.

(** The rest of [reset]. *)
Definition resetState (st : AppState) : AppState :=
  let st :=
    match canvas st with
    | Some c =>
        if gtb (rectWidth c) 0 && gtb (rectHeight c) 0
        then setViewport (getInitialViewport (rectWidth c) (rectHeight c)) st
        else st
    | None => st
    end in
  let st := setPoints [] st in
  let (p, g) := getInitialPoint (rng st) in
  let st := setCurrentPointRef p (setRng g st) in
  let st := setIsGenerating false st in
  let st := setAnimationStep None st in
  setHighlightedVertices [] st.

Definition reset (st : AppState) : AppState := resetState (cancel st).

(** ** The drawing effect *)

(** The transformation matrix of a 2D context: a point (x, y) is painted at
    (a x + c y + e, b x + d y + f). *)
Record Matrix : Type := mkMatrix {
  ma : R; mb : R; mc : R; md : R; me : R; mf : R
}.

Definition identityMatrix : Matrix := mkMatrix 1 0 0 1 0 0.

(** [ctx.translate(tx, ty)] and [ctx.scale(sx, sy)]: the current matrix is
    multiplied on the right. *)
Definition ctx_translate (tx ty : R) (m : Matrix) : Matrix :=
  mkMatrix (ma m) (mb m) (mc m) (md m)
    (ma m * tx + mc m * ty + me m) (mb m * tx + md m * ty + mf m).

Definition ctx_scale (sx sy : R) (m : Matrix) : Matrix :=
  mkMatrix (ma m * sx) (mb m * sx) (mc m * sy) (md m * sy) (me m) (mf m).

Definition transformPoint (m : Matrix) (p : Point) : Point :=
  mkPoint (ma m * x p + mc m * y p + me m) (mb m * x p + md m * y p + mf m).

(** What the effect paints: [fillRect], a filled [arc] path, a stroked
    line from [moveTo] to [lineTo]. *)
Inductive Shape : Type :=
| FillRect (rx ry rw rh : R)
| FillArc (cx cy radius startAngle endAngle : R)
| StrokeLine (x1 y1 x2 y2 lineWidth : R).

(** A painted shape, with the matrix and the fill or stroke style in force
    when it is painted. *)
Record Painted : Type := mkPainted {
  paintMatrix : Matrix;
  paintStyle : string;
  paintShape : Shape
}.

(** The matrix after the three calls "Apply viewport transform". *)
Definition viewMatrix (c : Canvas) (v : Viewport) : Matrix :=
  ctx_translate (- vx v) (- vy v)
    (ctx_scale (scale v) (- scale v)
       (ctx_translate (width c / 2) (height c / 2) identityMatrix)).

Definition squareAt (m : Matrix) (style : string) (size : R) (p : Point)
  : Painted :=
  mkPainted m style
    (FillRect (x p - size / 2) (y p - size / 2) size size).

Definition circleAt (m : Matrix) (style : string) (size : R) (p : Point)
  : Painted :=
  mkPainted m style (FillArc (x p) (y p) (size / 2) 0 (2 * PI)).

(** The effect that redraws the canvas: the shapes it paints, in order;
    [None] when it returns before painting (no canvas, or a scale that is
    not positive). *)
Definition draw (st : AppState) : option (list Painted) :=
  match canvas st with
  | None => None
  | Some c =>
      let v := viewport st in
      if leb (scale v) 0 then None
      else
        let background :=
          mkPainted identityMatrix "#0f172a"
            (FillRect 0 0 (width c) (height c)) in
        let m := viewMatrix c v in
        let pointSize := 1.25 / scale v in
        let pointSquares :=
          map (squareAt m "#FFFFFF" pointSize) (points st) in
        let vertexSquares :=
          if ltb (scale v) 2000
          then map (squareAt m "#f87171" (4 / scale v)) [V0; V1; V2]
          else [] in
        let highlights :=
          map (fun h => circleAt m "#a78bfa" (8 / scale v) (vertex h))
            (highlightedVertices st) in
        let stepShapes :=
          match animationStep st with
          | None => []
          | Some a =>
              [mkPainted m "rgba(255, 255, 0, 0.5)"
                 (StrokeLine (x (currentPoint a)) (y (currentPoint a))
                    (x (targetVertex a)) (y (targetVertex a))
                    (1 / scale v));
               circleAt m "#facc15" (5 / scale v) (currentPoint a);
               circleAt m "#22d3ee" (5 / scale v) (newPoint a)]
          end in
        Some (background
              :: pointSquares ++ vertexSquares ++ highlights ++ stepShapes)
  end.

(** ** The component as a transition system *)

(** The first render: the argument of [useRef], [getInitialPoint()], is
    evaluated and becomes [currentPointRef.current]. *)
Definition initialState (c : option Canvas) (g : Rng) : AppState :=
  let (p, g') := getInitialPoint g in
  mkAppState c [] p (mkViewport 0.5 0.433 1) false (mkPoint 0 0) P100
    false false None [] None [] 1 g' 0.

(** A later render: the argument of [useRef] is evaluated again, so two
    numbers are drawn, and the value is dropped. *)
Definition render (st : AppState) : AppState :=
  let (_, g') := getInitialPoint (rng st) in
  setRng g' st.

Inductive Event : Type :=
| Wheel (clientX clientY deltaY : R)
| MouseDown (clientX clientY : R)
| MouseUp
| MouseLeave
| MouseMove (clientX clientY : R)
| Resize (left top w h : R)
| ToggleMode
| ChooseAmount (n : PointsPerClick)
| ClickGenerate
| Reset
| Timeout (id : nat)
| Render.

(** What an event does; [None] when the control is disabled, when no such
    timeout is pending, or when the handler throws.  [Reset] is taken at
    any time: the button is disabled during a run, the function is not.
    A wheel event is taken by the handler of an up-to-date render
    ([handleWheel]); [handleWheelFrom] is the handler of any render.
    [Render] may come at any time, any number of times. *)
Definition handle (e : Event) (st : AppState) : option AppState :=
  match e with
  | Wheel cx cy d => Some (handleWheel cx cy d st)
  | MouseDown cx cy => Some (handleMouseDown cx cy st)
  | MouseUp => Some (handleMouseUp st)
  | MouseLeave => Some (handleMouseLeave st)
  | MouseMove cx cy => Some (handleMouseMove cx cy st)
  | Resize l t w h => Some (onResize l t w h st)
  | ToggleMode =>
      if isGenerating st then None
      else Some (setIsAnimationMode (negb (isAnimationMode st)) st)
  | ChooseAmount n =>
      if isAnimationMode st || isGenerating st then None
      else Some (setPointsPerClick n st)
  | ClickGenerate =>
      if isGenerating st then None else handleGeneratePoints st
  | Reset => Some (reset st)
  | Timeout id => fireTimer id st
  | Render => Some (render st)
  end.

(** Runs a list of events in order. *)
Fixpoint run (es : list Event) (st : AppState) : option AppState :=
  match es with
  | [] => Some st
  | e :: es' =>
      match handle e st with
      | Some st' => run es' st'
      | None => None
      end
  end.

(** States the component can be in. *)
Inductive reachable : AppState -> Prop :=
| reachable_init c g :
    (forall i, 0 <= draws g i < 1) -> reachable (initialState c g)
| reachable_step e st st' :
    reachable st -> handle e st = Some st' -> reachable st'.

(** ** The arithmetic kernel in binary64 *)

(** The numeric functions of the source over binary64 numbers, with the
    operations in the order the source applies them.  A comparison with
    NaN is false, as in the source. *)
Module B64.
Import PrimFloat.
#[local] Set Warnings "-inexact-float".
#[local] Open Scope float_scope.

Record Point : Type := mkPoint { x : float; y : float }.

Record Viewport : Type := mkViewport { vx : float; vy : float; scale : float }.

Definition Triple : Type := (Point * Point * Point)%type.

Definition V0 : Point := mkPoint 0 0.
Definition V1 : Point := mkPoint 1 0.
Definition V2 : Point := mkPoint 0.5 (sqrt 0.75).

Definition VERTICES : Triple := (V0, V1, V2).

Definition d1 (p : Point) (vs : Triple) : float :=
  let '(v1, v2, v3) := vs in
  (x p - x v2) * (y v1 - y v2) - (x v1 - x v2) * (y p - y v2).
Definition d2 (p : Point) (vs : Triple) : float :=
  let '(v1, v2, v3) := vs in
  (x p - x v3) * (y v2 - y v3) - (x v2 - x v3) * (y p - y v3).
Definition d3 (p : Point) (vs : Triple) : float :=
  let '(v1, v2, v3) := vs in
  (x p - x v1) * (y v3 - y v1) - (x v3 - x v1) * (y p - y v1).

(** [d < 0] is [d <? 0] and [d > 0] is [0 <? d]. *)
Definition has_neg (p : Point) (vs : Triple) : bool :=
  (d1 p vs <? 0) || (d2 p vs <? 0) || (d3 p vs <? 0).
Definition has_pos (p : Point) (vs : Triple) : bool :=
  (0 <? d1 p vs) || (0 <? d2 p vs) || (0 <? d3 p vs).

Definition isPointInTriangle (p : Point) (vs : Triple) : bool :=
  negb (has_neg p vs && has_pos p vs).

(** [nextPoint] of the two generators. *)
Definition midpoint (current targetVertex : Point) : Point :=
  mkPoint ((x current + x targetVertex) / 2)
          ((y current + y targetVertex) / 2).

(** [VERTICES[Math.floor(i)]]: the floor is 0 on [0, 1) (and at -0), 1 on
    [1, 2), 2 on [2, 3); any other index, NaN too, reads [undefined]. *)
Definition vertexAtFloor (i : float) : option Point :=
  if i <? 0 then None
  else if i <? 1 then Some V0
  else if i <? 2 then Some V1
  else if i <? 3 then Some V2
  else None.

(** One iteration of the chaos game for the draw [r]. *)
Definition chaosStep (current : Point) (r : float) : option (Point * Point) :=
  match vertexAtFloor (r * 3) with
  | Some targetVertex => Some (targetVertex, midpoint current targetVertex)
  | None => None
  end.

(** [s + t > 1] is [1 <? s + t]. *)
Definition reflect (s t : float) : float * float :=
  if 1 <? s + t then (1 - s, 1 - t) else (s, t).

Definition barycentric (s t : float) : Point :=
  mkPoint (x V0 * (1 - s - t) + x V1 * s + x V2 * t)
          (y V0 * (1 - s - t) + y V1 * s + y V2 * t).

(** [getInitialPoint] for the draws [s] and [t]. *)
Definition getInitialPoint (s t : float) : Point :=
  let '(s, t) := reflect s t in barycentric s t.

(** The body of [handleWheel] for a bitmap of the given size;
    [zoomFactor] is the number that [Math.pow(0.998, e.deltaY)] returned. *)
Definition zoomAt (zoomFactor mouseX mouseY width height : float)
  (v : Viewport) : Viewport :=
  let mouseWorldX := (mouseX - width / 2) / scale v + vx v in
  let mouseWorldY := - (mouseY - height / 2) / scale v + vy v in
  let newScale := scale v * zoomFactor in
  let newX := mouseWorldX - (mouseX - width / 2) / newScale in
  let newY := mouseWorldY + (mouseY - height / 2) / newScale in
  mkViewport newX newY newScale.

(** The test [viewport.scale <= 0] on which the drawing effect returns
    before painting. *)
Definition drawReturnsEarly (v : Viewport) : bool := scale v <=? 0.

(** [p.x >= xMin] is [xMin <=? p.x]. *)
Definition isPointInView (xMin xMax yMin yMax : float) (p : Point) : bool :=
  (xMin <=? x p) && (x p <=? xMax) && (yMin <=? y p) && (y p <=? yMax).

(** The [for] loop of [findSeedPoint] with [n] iterations left, reading
    the draws from position [pos]: the result and the next position. *)
Fixpoint seedLoop (n : nat) (xMin yMin worldWidth worldHeight : float)
  (draws : nat -> float) (pos : nat) : option Point * nat :=
  match n with
  | O => (None, pos)
  | S n' =>
      let randomPointInView :=
        mkPoint (xMin + draws pos * worldWidth)
                (yMin + draws (S pos) * worldHeight) in
      if isPointInTriangle randomPointInView VERTICES
      then (Some randomPointInView, S (S pos))
      else seedLoop n' xMin yMin worldWidth worldHeight draws (S (S pos))
  end.

(** The [i]-th point that the loop tries when it starts at position
    [pos]: draws [2 i] and [2 i + 1] from there. *)
Definition tried (xMin yMin worldWidth worldHeight : float)
  (draws : nat -> float) (pos i : nat) : Point :=
  mkPoint (xMin + draws (2 * i + pos)%nat * worldWidth)
          (yMin + draws (2 * i + 1 + pos)%nat * worldHeight).

(** Whether [findSeedPoint] looks for a fresh seed. *)
Definition needsSeed (current : Point) (width height : float) (v : Viewport)
  (pointsLength : nat) : bool :=
  let worldWidth := width / scale v in
  let worldHeight := height / scale v in
  let xMin := vx v - worldWidth / 2 in
  let xMax := vx v + worldWidth / 2 in
  let yMin := vy v - worldHeight / 2 in
  let yMax := vy v + worldHeight / 2 in
  Nat.eqb pointsLength 0
  || negb (isPointInView xMin xMax yMin yMax current).

(** [findSeedPoint] with the canvas mounted, for a bitmap of the given
    size and a collection of [pointsLength] points. *)
Definition findSeedPoint (current : Point) (width height : float)
  (v : Viewport) (pointsLength : nat) (draws : nat -> float) (pos : nat)
  : Point * nat :=
  let worldWidth := width / scale v in
  let worldHeight := height / scale v in
  let xMin := vx v - worldWidth / 2 in
  let yMin := vy v - worldHeight / 2 in
  if needsSeed current width height v pointsLength
  then
    match seedLoop 100 xMin yMin worldWidth worldHeight draws pos with
    | (Some p, pos') => (p, pos')
    | (None, pos') =>
        (getInitialPoint (draws pos') (draws (S pos')), S (S pos'))
    end
  else (current, pos).

(** *** Concrete inputs *)

(** A point of the edge from [V1] to [V2], and the point halfway from it
    to [V2]. *)
Definition edgePoint : Point := mkPoint 0.75 0.4330127018922193.
Definition nearEdgePoint : Point := mkPoint 0.625 0.649519052838329.

(** A point near the edge from [V1] to [V2]. *)
Definition lowEdgePoint : Point := mkPoint 0.9 0.17320508075688773.

Definition centroid : Point := mkPoint 0.5 (sqrt 0.75 / 3).
Definition outsidePoint : Point := mkPoint (-1) (-1).

(** Draws that select each vertex, the draw just below one third and the
    largest draw below 1. *)
Definition drawV0 : float := 0.
Definition drawV1 : float := 0.5.
Definition drawV2 : float := 0.9.
Definition drawThird : float := 0.3333333333333333.
Definition drawLast : float := 0.9999999999999999.

(** The viewport of the first render, a viewport far from the triangle,
    and the bitmap size and cursor of the examples. *)
Definition firstViewport : Viewport := mkViewport 0.5 0.433 1.
Definition width800 : float := 800.
Definition height600 : float := 600.
Definition cursorX : float := 100.
Definition cursorY : float := 200.

(** Draws that are all 0.25 but draw 201, which is 0.75. *)
Definition quarterDraws (i : nat) : float :=
  if Nat.eqb i 201 then 0.75 else 0.25.

(** [Math.pow(0.998, d)] for some wheel deltas [d]: it underflows to 0 at
    400000 and overflows to [Infinity] at -400000. *)
Definition pow0998_120 : float := 0.7864388409944022.
Definition pow0998_m120 : float := 1.271554694241148.
Definition pow0998_400 : float := 0.44896916507266005.
Definition pow0998_20000 : float := 4.081555886411017e-18.
Definition pow0998_m20000 : float := 2.450046080048453e+17.
Definition pow0998_400000 : float := 0.
Definition pow0998_m400000 : float := infinity.

(** The viewport after [n] wheel events of factor [zoomFactor] at the
    cursor of the examples, each handled after the render of the one
    before. *)
Definition wheels (n : nat) (zoomFactor : float) (v : Viewport) : Viewport :=
  Nat.iter n (zoomAt zoomFactor cursorX cursorY width800 height600) v.

(** The viewport with centre (300, -100) and scale 1. *)
Definition lostViewport : Viewport := mkViewport 300 (-100) 1.

(** Two numbers differ by less than [eps]. *)
Definition near (eps a b : float) : bool := abs (a - b) <? eps.

Definition tolerance : float := 0x1p-40.

End B64.

(** * Part II: vocabulary of the specification *)

(** Some edge cross product is strictly negative. *)
Definition some_neg (p : Point) (vs : Triple) : Prop :=
  d1 p vs < 0 \/ d2 p vs < 0 \/ d3 p vs < 0.

(** Some edge cross product is strictly positive. *)
Definition some_pos (p : Point) (vs : Triple) : Prop :=
  0 < d1 p vs \/ 0 < d2 p vs \/ 0 < d3 p vs.

(** The convex hull of the three vertices: the convex combinations. *)
Definition inHull (p : Point) : Prop :=
  exists a b c : R,
    0 <= a /\ 0 <= b /\ 0 <= c /\ a + b + c = 1 /\
    x p = a * x V0 + b * x V1 + c * x V2 /\
    y p = a * y V0 + b * y V1 + c * y V2.

(** Every draw of the oracle is in [0, 1), as [Math.random] promises. *)
Definition unitDraws (g : Rng) : Prop := forall i, 0 <= draws g i < 1.

(** The oracle after [n] more draws. *)
Definition advance (n : nat) (g : Rng) : Rng :=
  mkRng (draws g) (n + pos g).

(** The visible world rectangle of a canvas under a viewport. *)
Definition inView (c : Canvas) (v : Viewport) (p : Point) : Prop :=
  vx v - width c / scale v / 2 <= x p <= vx v + width c / scale v / 2 /\
  vy v - height c / scale v / 2 <= y p <= vy v + height c / scale v / 2.

(** The [i]-th point the loop of [findSeedPoint] tries: draws [2 i] and
    [2 i + 1] from the current position of the oracle, scaled into the
    rectangle with corner ([xMin], [yMin]) and the given size. *)
Definition tried (xMin yMin worldWidth worldHeight : R) (g : Rng) (i : nat)
  : Point :=
  mkPoint (xMin + draws g (2 * i + pos g) * worldWidth)
          (yMin + draws g (2 * i + 1 + pos g) * worldHeight).

(** The [i]-th candidate of [findSeedPoint] for a canvas and a viewport:
    the tried point in the visible world rectangle. *)
Definition candidate (c : Canvas) (v : Viewport) (g : Rng) (i : nat) : Point :=
  tried (vx v - width c / scale v / 2) (vy v - height c / scale v / 2)
    (width c / scale v) (height c / scale v) g i.

(** The barycentric sample of [getInitialPoint] from the next two draws. *)
Definition fallbackPoint (g : Rng) : Point :=
  let '(s, t) := reflect (draws g (pos g)) (draws g (1 + pos g)) in
  barycentric s t.

(** The vertex chosen by the [k]-th draw from the current position. *)
Definition targetAt (g : Rng) (k : nat) : Point :=
  match vertexAt (Math_floor (draws g (k + pos g) * 3)) with
  | Some v => v
  | None => V0
  end.

(** The [k]-th point of the chaos game from [seed]. *)
Fixpoint pointAt (g : Rng) (seed : Point) (k : nat) : Point :=
  match k with
  | O => seed
  | S k' => midpoint (pointAt g seed k') (targetAt g k')
  end.

(** Points [j + 1 .. j + n] of the chaos game, in generation order. *)
Definition orbitFrom (g : Rng) (seed : Point) (j n : nat) : list Point :=
  map (fun i => pointAt g seed (S i)) (seq j n).

Definition orbit (g : Rng) (seed : Point) (n : nat) : list Point :=
  orbitFrom g seed 0 n.

(** The highlight queue after the ticks that chose [targets], oldest tick
    first, from the queue [q]. *)
Definition highlightsAfter (targets : list Point)
  (q : list HighlightedVertex) : list HighlightedVertex :=
  fold_left (fun q t => updateHighlights t q) targets q.

(** The four most recent targets, newest first, with lives 4, 3, 2, 1. *)
Definition recentHighlights (targets : list Point) : list HighlightedVertex :=
  map (fun vl => mkHighlightedVertex (fst vl) (snd vl))
    (combine (firstn 4 (rev targets)) [4; 3; 2; 1]%Z).

(** The oldest pending timeout fires. *)
Definition firePending (st : AppState) : option AppState :=
  match timers st with
  | [] => None
  | t :: _ => handle (Timeout (timerId t)) st
  end.

(** [n] pending timeouts fire, one after the other. *)
Fixpoint fireN (n : nat) (st : AppState) : option AppState :=
  match n with
  | O => Some st
  | S n' =>
      match firePending st with
      | Some st' => fireN n' st'
      | None => None
      end
  end.

(** The state of a run of the animation, started in [st] with the seed
    [seed] and the oracle [g], once [step(j)] has returned: [j + 1] points
    appended, the snapshot of the last iteration published, and the callback
    that will call [step(j + 1)] pending. *)
Definition tickState (st : AppState) (seed : Point) (g : Rng) (j : nat)
  : AppState :=
  mkAppState (canvas st) (points st ++ orbit g seed (S j))
    (currentPointRef st) (viewport st) (isDragging st) (dragStartRef st)
    (pointsPerClick st) (isAnimationMode st) true
    (Some (mkAnimationStep (pointAt g seed j) (targetAt g j)
             (pointAt g seed (S j))))
    (highlightsAfter (map (targetAt g) (seq 0 (S j)))
       (highlightedVertices st))
    (Some (nextTimerId st + j)%nat)
    [mkTimer (nextTimerId st + j) 100 (S j) (pointAt g seed (S j))]
    (S (nextTimerId st + j)) (advance (S j) g)
    (setPointsCalls st + S j).

(** The state after the run: [step(100)] has returned. *)
Definition finishedState (st : AppState) (seed : Point) (g : Rng)
  : AppState :=
  mkAppState (canvas st) (points st ++ orbit g seed 100)
    (pointAt g seed 100) (viewport st) (isDragging st) (dragStartRef st)
    (pointsPerClick st) (isAnimationMode st) false None []
    (Some (nextTimerId st + 99)%nat) [] (S (nextTimerId st + 99))
    (advance 100 g) (setPointsCalls st + 100).

(** The controller is idle: no run is in progress, nothing is pending. *)
Definition Idle (st : AppState) : Prop :=
  isGenerating st = false /\ timers st = [].

(** What holds in every state the component can be in; the positive
    scale is a fact of exact arithmetic (in binary64 the scale can
    underflow to 0). *)
Record Inv (st : AppState) : Prop := mkInv {
  inv_draws : unitDraws (rng st);
  inv_scale : 0 < scale (viewport st);
  inv_handle :
    forall id, animationTimeoutRef st = Some id ->
               (1 <= id < nextTimerId st)%nat;
  inv_timers :
    timers st = [] \/
    exists t, timers st = [t] /\ animationTimeoutRef st = Some (timerId t);
  inv_idle :
    isGenerating st = false ->
    timers st = [] /\ animationStep st = None /\ highlightedVertices st = [];
  inv_running : isGenerating st = true -> timers st <> [];
  inv_highlights :
    exists targets, highlightedVertices st = recentHighlights targets;
  inv_next : (1 <= nextTimerId st)%nat
}.

(** The world-to-screen map of the drawing effect. *)
Definition toScreen (c : Canvas) (v : Viewport) (p : Point) : Point :=
  transformPoint (viewMatrix c v) p.

(** A point passes the membership test of the fixed triangle. *)
Definition inside (p : Point) : Prop := isPointInTriangle p VERTICES = true.

(** A point is one of the three vertices. *)
Definition isVertex (v : Point) : Prop := v = V0 \/ v = V1 \/ v = V2.

(** A point is the result of a chaos-game step from a point inside. *)
Definition generated (p : Point) : Prop :=
  exists q v, inside q /\ isVertex v /\ p = midpoint q v.

(** The points that the component holds are inside the triangle (in exact
    arithmetic), and a pending callback has a count between 1 and 100. *)
Record Contained (st : AppState) : Prop := mkContained {
  contained_current : inside (currentPointRef st);
  contained_points : Forall generated (points st);
  contained_timers :
    Forall (fun t => inside (timerLocal t)
                     /\ (1 <= timerCount t <= 100)%nat) (timers st)
}.

(** The square a [fillRect] covers on the screen under a matrix without
    rotation: its centre and its signed side lengths. *)
Definition rectCentre (m : Matrix) (rx ry rw rh : R) : Point :=
  transformPoint m (mkPoint (rx + rw / 2) (ry + rh / 2)).

(** ** Concrete inputs *)

(** The oracle that always draws 0. *)
Definition zeroRng : Rng := mkRng (fun _ => 0) 0.

(** An 800 x 600 canvas at the top left corner of the page. *)
Definition canvas800 : Canvas := mkCanvas 0 0 800 600 800 600.

(** The component just mounted on that canvas, with that oracle. *)
Definition mountedState : AppState := initialState (Some canvas800) zeroRng.

(** The mounted component switched to animation mode. *)
Definition animationModeState : AppState :=
  setIsAnimationMode true mountedState.

(** That component in the middle of a run: [step(0)] has returned. *)
Definition animatingState : AppState :=
  tickState animationModeState
    (fst (findSeedPoint (currentPointRef animationModeState)
            animationModeState (rng animationModeState)))
    (snd (findSeedPoint (currentPointRef animationModeState)
            animationModeState (rng animationModeState))) 0.

(** * Part III: properties *)

(** Reduces the setters and the projections of a state. *)
Ltac fields :=
  cbn [setViewport setPoints setCurrentPointRef setIsDragging
       setDragStartRef setPointsPerClick setIsAnimationMode setIsGenerating
       setAnimationStep setHighlightedVertices setAnimationTimeoutRef
       setTimers setRng setCanvas
       canvas points currentPointRef viewport isDragging dragStartRef
       pointsPerClick isAnimationMode isGenerating animationStep
       highlightedVertices animationTimeoutRef timers nextTimerId rng
       setPointsCalls scale vx vy].

(** ** Numbers *)

Lemma ltb_true (a b : R) : ltb a b = true <-> a < b.
Proof. unfold ltb; destruct (Rlt_dec a b); split; intros; try easy. Qed.

Lemma ltb_false (a b : R) : ltb a b = false <-> b <= a.
Proof.
  unfold ltb; destruct (Rlt_dec a b); split; intros; try easy; lra.
Qed.


Lemma leb_false (a b : R) : leb a b = false <-> b < a.
Proof.
  unfold leb; destruct (Rle_dec a b); split; intros; try easy; lra.
Qed.

Lemma gtb_true (a b : R) : gtb a b = true <-> b < a.
Proof. apply ltb_true. Qed.

Lemma gtb_false (a b : R) : gtb a b = false <-> a <= b.
Proof. apply ltb_false. Qed.


Lemma geb_false (a b : R) : geb a b = false <-> a < b.
Proof. apply leb_false. Qed.

Lemma sqrt075_sqr : sqrt075 * sqrt075 = 0.75.
Proof. unfold sqrt075; apply sqrt_sqrt; lra. Qed.

Lemma sqrt075_pos : 0 < sqrt075.
Proof. unfold sqrt075; apply sqrt_lt_R0; lra. Qed.

Lemma sqrt075_bounds : 0.866025 < sqrt075 < 0.866026.
Proof.
  pose proof sqrt075_sqr as Hs; pose proof sqrt075_pos as Hp.
  split; nra.
Qed.

(** [Math.floor(r * 3)] is 0, 1 or 2 for a draw [r] in [0, 1). *)
Lemma floor3_range (r : R) :
  0 <= r < 1 ->
  Math_floor (r * 3) = 0%Z \/ Math_floor (r * 3) = 1%Z
  \/ Math_floor (r * 3) = 2%Z.
Proof.
  intros [H0 H1]. unfold Math_floor.
  destruct (base_Int_part (r * 3)) as [Hle Hgt].
  assert (Hlo : (-1 < Int_part (r * 3))%Z) by (apply lt_IZR; simpl; lra).
  assert (Hhi : (Int_part (r * 3) < 3)%Z) by (apply lt_IZR; simpl; lra).
  lia.
Qed.

Lemma vertexAt_floor3 (r : R) :
  0 <= r < 1 ->
  exists v, vertexAt (Math_floor (r * 3)) = Some v
            /\ (v = V0 \/ v = V1 \/ v = V2).
Proof.
  intros Hr. destruct (floor3_range r Hr) as [E | [E | E]]; rewrite E; simpl.
  - exists V0; auto.
  - exists V1; auto.
  - exists V2; auto.
Qed.

(** ** Geometry *)

Lemma has_neg_true p vs : has_neg p vs = true <-> some_neg p vs.
Proof.
  unfold has_neg, some_neg.
  rewrite !orb_true_iff, !ltb_true. tauto.
Qed.

Lemma has_pos_true p vs : has_pos p vs = true <-> some_pos p vs.
Proof.
  unfold has_pos, some_pos.
  rewrite !orb_true_iff, !gtb_true. tauto.
Qed.

Lemma isPointInTriangle_true p vs :
  isPointInTriangle p vs = true <-> ~ (some_neg p vs /\ some_pos p vs).
Proof.
  unfold isPointInTriangle.
  rewrite negb_true_iff, andb_false_iff.
  rewrite <- has_neg_true, <- has_pos_true.
  destruct (has_neg p vs), (has_pos p vs); intuition congruence.
Qed.

Lemma isPointInTriangle_false p vs :
  isPointInTriangle p vs = false <-> some_neg p vs /\ some_pos p vs.
Proof.
  unfold isPointInTriangle.
  rewrite negb_false_iff, andb_true_iff, has_neg_true, has_pos_true.
  tauto.
Qed.

(** On the fixed triangle the three cross products are affine in the point
    and add up to the height, so "inside" means all three non-negative. *)
Lemma d1_VERTICES p : d1 p VERTICES = y p.
Proof. unfold d1; simpl. lra. Qed.

Lemma d2_VERTICES p :
  d2 p VERTICES = sqrt075 - sqrt075 * x p - 0.5 * y p.
Proof. unfold d2; simpl. lra. Qed.

Lemma d3_VERTICES p : d3 p VERTICES = sqrt075 * x p - 0.5 * y p.
Proof. unfold d3; simpl. lra. Qed.

Lemma inside_VERTICES p :
  isPointInTriangle p VERTICES = true <->
  0 <= y p /\ 0 <= sqrt075 - sqrt075 * x p - 0.5 * y p
  /\ 0 <= sqrt075 * x p - 0.5 * y p.
Proof.
  rewrite isPointInTriangle_true.
  unfold some_neg, some_pos.
  rewrite d1_VERTICES, d2_VERTICES, d3_VERTICES.
  pose proof sqrt075_pos as Hh.
  split.
  - intros Hn. repeat split; apply Rnot_lt_le; intros Hlt; apply Hn; lra.
  - intros (Ha & Hb & Hc) [Hneg _]. lra.
Qed.

(** The membership test decides the convex hull of the three vertices. *)
Lemma inside_iff_inHull p :
  isPointInTriangle p VERTICES = true <-> inHull p.
Proof.
  rewrite inside_VERTICES.
  pose proof sqrt075_pos as Hh. pose proof sqrt075_sqr as Hs.
  unfold inHull; simpl. split.
  - intros (Ha & Hb & Hc).
    exists ((sqrt075 - sqrt075 * x p - 0.5 * y p) / sqrt075),
           ((sqrt075 * x p - 0.5 * y p) / sqrt075),
           (y p / sqrt075).
    repeat split.
    + apply Rmult_le_pos; [lra | left; apply Rinv_0_lt_compat; lra].
    + apply Rmult_le_pos; [lra | left; apply Rinv_0_lt_compat; lra].
    + apply Rmult_le_pos; [lra | left; apply Rinv_0_lt_compat; lra].
    + replace 0.5 with (/ 2) by lra. field; lra.
    + replace 0.5 with (/ 2) by lra. field; lra.
    + field; lra.
  - intros (a & b & c & Ha & Hb & Hc & Hsum & Hx & Hy).
    rewrite Hx, Hy. repeat split; nra.
Qed.

Lemma bool_eq_iff (a b : bool) : (a = true <-> b = true) -> a = b.
Proof. destruct a, b; intuition congruence. Qed.

(** Exchanging the first two vertices negates the cross products. *)
Lemma swap_d1 p a b c : d1 p (b, a, c) = - d1 p (a, b, c).
Proof. unfold d1. ring. Qed.

Lemma swap_d2 p a b c : d2 p (b, a, c) = - d3 p (a, b, c).
Proof. unfold d2, d3. ring. Qed.

Lemma swap_d3 p a b c : d3 p (b, a, c) = - d2 p (a, b, c).
Proof. unfold d2, d3. ring. Qed.

Lemma isPointInTriangle_swap p a b c :
  isPointInTriangle p (b, a, c) = isPointInTriangle p (a, b, c).
Proof.
  apply bool_eq_iff. rewrite !isPointInTriangle_true.
  unfold some_neg, some_pos.
  pose proof (swap_d1 p a b c) as E1.
  pose proof (swap_d2 p a b c) as E2.
  pose proof (swap_d3 p a b c) as E3.
  split; intros Hn [Hneg Hpos]; apply Hn; split;
    intuition lra.
Qed.

(** Rotating the vertices rotates the cross products. *)
Lemma isPointInTriangle_rotate p a b c :
  isPointInTriangle p (b, c, a) = isPointInTriangle p (a, b, c).
Proof.
  apply bool_eq_iff. rewrite !isPointInTriangle_true.
  unfold some_neg, some_pos.
  replace (d1 p (b, c, a)) with (d2 p (a, b, c)) by reflexivity.
  replace (d2 p (b, c, a)) with (d3 p (a, b, c)) by reflexivity.
  replace (d3 p (b, c, a)) with (d1 p (a, b, c)) by reflexivity.
  tauto.
Qed.

(** ** The membership test in binary64 *)

(** Replaces the comparisons of a goal by arbitrary booleans. *)
Ltac abstract_comparisons :=
  repeat match goal with
         | |- context [PrimFloat.ltb ?u ?v] =>
             generalize (PrimFloat.ltb u v); intro
         end.

Lemma B64_isPointInTriangle_true p vs :
  B64.isPointInTriangle p vs = true <->
  ~ (B64.has_neg p vs = true /\ B64.has_pos p vs = true).
Proof.
  unfold B64.isPointInTriangle.
  destruct (B64.has_neg p vs), (B64.has_pos p vs); simpl;
    intuition congruence.
Qed.

(** Rotating the vertices rotates the three cross products: each is the
    same expression as before, so the result is the same in binary64. *)
Lemma B64_isPointInTriangle_rotate p a b c :
  B64.isPointInTriangle p (b, c, a) = B64.isPointInTriangle p (a, b, c).
Proof.
  unfold B64.isPointInTriangle, B64.has_neg, B64.has_pos.
  change (B64.d1 p (b, c, a)) with (B64.d2 p (a, b, c)).
  change (B64.d2 p (b, c, a)) with (B64.d3 p (a, b, c)).
  change (B64.d3 p (b, c, a)) with (B64.d1 p (a, b, c)).
  abstract_comparisons.
  repeat match goal with b : bool |- _ => destruct b end; reflexivity.
Qed.

(** C8, the invariance as the specification states it: in binary64 the
    result depends on the order of the vertices.  The point
    (0.625, 0.649519052838329) is rejected for the order (V0, V1, V2) and
    accepted for the order (V0, V2, V1). *)
Lemma isPointInTriangle_order_matters :
  B64.isPointInTriangle B64.nearEdgePoint (B64.V0, B64.V1, B64.V2) = false /\
  B64.isPointInTriangle B64.nearEdgePoint (B64.V0, B64.V2, B64.V1) = true.
Proof. split; vm_compute; reflexivity. Qed.

(** C8 (amended): [isPointInTriangle] is true exactly when the three edge
    cross products, as computed, are not both somewhere strictly negative
    and somewhere strictly positive, so a point with a zero cross product
    and no sign conflict counts as inside.  In binary64 the result is
    unchanged by the two rotations of the vertices, it is true at the three
    vertices and at the centroid (0.5, sqrt 0.75 / 3) and false at
    (-1, -1), and near an edge it can differ from the exact test: the point
    (0.9, 0.17320508075688773) is accepted.  In exact arithmetic the test
    has the same characterisation and values, and all five rearrangements
    of the vertices leave its result unchanged. *)
Theorem isPointInTriangle_spec :
  (forall p vs,
      B64.isPointInTriangle p vs
      = negb (B64.has_neg p vs && B64.has_pos p vs) /\
      (B64.has_neg p vs = true <->
       PrimFloat.ltb (B64.d1 p vs) PrimFloat.zero = true
       \/ PrimFloat.ltb (B64.d2 p vs) PrimFloat.zero = true
       \/ PrimFloat.ltb (B64.d3 p vs) PrimFloat.zero = true) /\
      (B64.has_pos p vs = true <->
       PrimFloat.ltb PrimFloat.zero (B64.d1 p vs) = true
       \/ PrimFloat.ltb PrimFloat.zero (B64.d2 p vs) = true
       \/ PrimFloat.ltb PrimFloat.zero (B64.d3 p vs) = true) /\
      (B64.isPointInTriangle p vs = true <->
       ~ (B64.has_neg p vs = true /\ B64.has_pos p vs = true))) /\
  (forall p a b c,
      B64.isPointInTriangle p (b, c, a) = B64.isPointInTriangle p (a, b, c) /\
      B64.isPointInTriangle p (c, a, b) = B64.isPointInTriangle p (a, b, c)) /\
  (B64.isPointInTriangle B64.V0 B64.VERTICES = true /\
   B64.isPointInTriangle B64.V1 B64.VERTICES = true /\
   B64.isPointInTriangle B64.V2 B64.VERTICES = true /\
   B64.isPointInTriangle B64.centroid B64.VERTICES = true /\
   B64.isPointInTriangle B64.outsidePoint B64.VERTICES = false /\
   B64.isPointInTriangle B64.lowEdgePoint B64.VERTICES = true) /\
  (forall p vs,
      isPointInTriangle p vs = negb (has_neg p vs && has_pos p vs) /\
      (isPointInTriangle p vs = true <->
       ~ (some_neg p vs /\ some_pos p vs))) /\
  (forall p a b c,
      isPointInTriangle p (a, c, b) = isPointInTriangle p (a, b, c) /\
      isPointInTriangle p (b, a, c) = isPointInTriangle p (a, b, c) /\
      isPointInTriangle p (b, c, a) = isPointInTriangle p (a, b, c) /\
      isPointInTriangle p (c, a, b) = isPointInTriangle p (a, b, c) /\
      isPointInTriangle p (c, b, a) = isPointInTriangle p (a, b, c)) /\
  isPointInTriangle V0 VERTICES = true /\
  isPointInTriangle V1 VERTICES = true /\
  isPointInTriangle V2 VERTICES = true /\
  isPointInTriangle (mkPoint 0.5 (sqrt075 / 3)) VERTICES = true /\
  isPointInTriangle (mkPoint (-1) (-1)) VERTICES = false /\
  isPointInTriangle (mkPoint 0.9 0.17320508075688773) VERTICES = false.
Proof.
  pose proof sqrt075_pos as Hh.
  split; [| split; [| split; [| split; [| split]]]].
  - intros p vs. split; [reflexivity |].
    split; [| split; [| apply B64_isPointInTriangle_true]].
    + unfold B64.has_neg. rewrite !orb_true_iff. tauto.
    + unfold B64.has_pos. rewrite !orb_true_iff. tauto.
  - intros p a b c. split.
    + apply B64_isPointInTriangle_rotate.
    + rewrite (B64_isPointInTriangle_rotate p b c a).
      apply B64_isPointInTriangle_rotate.
  - repeat split; vm_compute; reflexivity.
  - intros p vs. split; [reflexivity | apply isPointInTriangle_true].
  - intros p a b c. repeat split.
    + rewrite <- (isPointInTriangle_rotate p a c b).
      rewrite <- (isPointInTriangle_rotate p c b a).
      apply isPointInTriangle_swap.
    + apply isPointInTriangle_swap.
    + apply isPointInTriangle_rotate.
    + rewrite (isPointInTriangle_rotate p b c a).
      apply isPointInTriangle_rotate.
    + rewrite <- (isPointInTriangle_rotate p c b a).
      apply isPointInTriangle_swap.
  - repeat split.
    + apply inside_VERTICES; simpl; lra.
    + apply inside_VERTICES; simpl; lra.
    + apply inside_VERTICES; simpl; lra.
    + apply inside_VERTICES; simpl; lra.
    + apply isPointInTriangle_false. unfold some_neg, some_pos.
      rewrite d1_VERTICES, d2_VERTICES, d3_VERTICES; simpl. split; lra.
    + apply isPointInTriangle_false. unfold some_neg, some_pos.
      rewrite d1_VERTICES, d2_VERTICES, d3_VERTICES; simpl.
      pose proof sqrt075_sqr as Hs.
      assert (Hb : sqrt075 < 0.86602540378443865) by nra.
      split; lra.
Qed.

(** ** The chaos-game step *)

Lemma midpoint_half current target :
  x (midpoint current target) = 0.5 * x current + 0.5 * x target /\
  y (midpoint current target) = 0.5 * y current + 0.5 * y target.
Proof. simpl. split; lra. Qed.

Lemma vertex_inside v :
  v = V0 \/ v = V1 \/ v = V2 -> isPointInTriangle v VERTICES = true.
Proof.
  pose proof sqrt075_pos as Hh.
  intros [-> | [-> | ->]]; apply inside_VERTICES; simpl; lra.
Qed.

(** Halfway towards a vertex stays inside the triangle. *)
Lemma midpoint_inside current v :
  v = V0 \/ v = V1 \/ v = V2 ->
  isPointInTriangle current VERTICES = true ->
  isPointInTriangle (midpoint current v) VERTICES = true.
Proof.
  intros Hv Hc.
  apply vertex_inside in Hv.
  apply inside_VERTICES in Hv. apply inside_VERTICES in Hc.
  apply inside_VERTICES. simpl. lra.
Qed.

(** With a draw in [0, 1) the step picks a vertex and halves the way. *)
Lemma chaosStep_ok current g :
  0 <= draws g (pos g) < 1 ->
  exists target,
    chaosStep current g
    = (Some (target, midpoint current target), advance 1 g)
    /\ vertexAt (Math_floor (draws g (pos g) * 3)) = Some target
    /\ (target = V0 \/ target = V1 \/ target = V2).
Proof.
  intros Hr.
  destruct (vertexAt_floor3 _ Hr) as (v & Hv & Hin).
  exists v. unfold chaosStep, bind, Math_random. rewrite Hv.
  repeat split; auto.
Qed.


(** ** The initial viewport *)

Lemma getInitialViewport_eq w h :
  getInitialViewport w h
  = mkViewport 0.5 (sqrt075 / 2)
      (Rmin (w / (1 * 1.1)) (h / (sqrt075 * 1.1))).
Proof. reflexivity. Qed.

Lemma initial_scale_800_600 :
  scale (getInitialViewport 800 600) = 600 / (sqrt075 * 1.1).
Proof.
  rewrite getInitialViewport_eq. simpl.
  pose proof sqrt075_bounds as [Hlo Hhi].
  apply Rmin_right.
  apply Rmult_le_reg_r with (sqrt075 * 1.1); [nra |].
  unfold Rdiv. rewrite Rmult_assoc, Rinv_l by nra.
  replace (/ (1 * 1.1)) with (/ 1.1) by (f_equal; lra).
  assert (H11 : 800 * / 1.1 * 1.1 = 800) by (field; lra).
  nra.
Qed.

Lemma initial_scale_800_600_bounds :
  629.83 < scale (getInitialViewport 800 600) < 629.84.
Proof.
  rewrite initial_scale_800_600.
  pose proof sqrt075_bounds as [Hlo Hhi].
  assert (Hpos : 0 < sqrt075 * 1.1) by nra.
  split.
  - apply Rmult_lt_reg_r with (sqrt075 * 1.1); [assumption |].
    unfold Rdiv. rewrite Rmult_assoc, Rinv_l by lra. nra.
  - apply Rmult_lt_reg_r with (sqrt075 * 1.1); [assumption |].
    unfold Rdiv. rewrite Rmult_assoc, Rinv_l by lra. nra.
Qed.

(** C5, the example as the specification prints it: the scale for an
    800 x 600 canvas is not near 566.67, it is more than 63 above. *)
Lemma initial_scale_800_600_not_566 :
  ~ (Rabs (scale (getInitialViewport 800 600) - 566.67) <= 63).
Proof.
  pose proof initial_scale_800_600_bounds as [Hlo Hhi].
  intros Habs. rewrite Rabs_right in Habs; lra.
Qed.

(** C5 (amended): [getInitialViewport w h] has scale
    min (w / (1 * 1.1), h / (sqrt 0.75 * 1.1)) and centre
    (0.5, sqrt 0.75 / 2); for an 800 x 600 canvas the scale is
    min (800 / 1.1, 600 / (sqrt 0.75 * 1.1)) = 600 / (sqrt 0.75 * 1.1),
    between 629.83 and 629.84, with x = 0.5 and y = sqrt 0.75 / 2, between
    0.433 and 0.4331. *)
Theorem getInitialViewport_spec :
  (forall w h,
      scale (getInitialViewport w h)
      = Rmin (w / (1 * 1.1)) (h / (sqrt075 * 1.1)) /\
      vx (getInitialViewport w h) = 0.5 /\
      vy (getInitialViewport w h) = sqrt075 / 2) /\
  scale (getInitialViewport 800 600)
  = Rmin (800 / 1.1) (600 / (sqrt075 * 1.1)) /\
  629.83 < scale (getInitialViewport 800 600) < 629.84 /\
  vx (getInitialViewport 800 600) = 0.5 /\
  vy (getInitialViewport 800 600) = sqrt075 / 2 /\
  0.433 < vy (getInitialViewport 800 600) < 0.4331.
Proof.
  pose proof sqrt075_bounds as [Hlo Hhi].
  split; [| split; [| split; [| split; [| split]]]].
  - intros w h. repeat split.
  - rewrite getInitialViewport_eq. simpl. f_equal. f_equal. lra.
  - apply initial_scale_800_600_bounds.
  - reflexivity.
  - reflexivity.
  - simpl. lra.
Qed.

(** ** Viewport operations *)

Lemma Math_pow_pos b e : 0 < Math_pow b e.
Proof. unfold Math_pow, Rpower. apply exp_pos. Qed.

Lemma Math_pow_opp b e : Math_pow b (- e) = / Math_pow b e.
Proof. unfold Math_pow. apply Rpower_Ropp. Qed.

Lemma getInitialViewport_scale_pos w h :
  0 < w -> 0 < h -> 0 < scale (getInitialViewport w h).
Proof.
  intros Hw Hh. rewrite getInitialViewport_eq. simpl.
  pose proof sqrt075_pos as Hs.
  apply Rmin_glb_lt; apply Rdiv_lt_0_compat; nra.
Qed.

Lemma zoomAt_scale mouseX mouseY deltaY c v :
  scale (zoomAt mouseX mouseY deltaY c v)
  = scale v * Math_pow 0.998 deltaY.
Proof. reflexivity. Qed.

Lemma zoomAt_scale_pos mouseX mouseY deltaY c v :
  0 < scale v -> 0 < scale (zoomAt mouseX mouseY deltaY c v).
Proof.
  intros Hs. rewrite zoomAt_scale.
  apply Rmult_lt_0_compat; [assumption | apply Math_pow_pos].
Qed.

Lemma cancel_viewport st : viewport (cancel st) = viewport st.
Proof.
  unfold cancel. destruct (animationTimeoutRef st) as [id |]; [| reflexivity].
  destruct (Nat.eqb id 0); reflexivity.
Qed.

Lemma cancel_canvas st : canvas (cancel st) = canvas st.
Proof.
  unfold cancel. destruct (animationTimeoutRef st) as [id |]; [| reflexivity].
  destruct (Nat.eqb id 0); reflexivity.
Qed.

(** The viewport that [reset] installs. *)
Lemma reset_viewport st :
  viewport (reset st)
  = match canvas st with
    | Some c =>
        if gtb (rectWidth c) 0 && gtb (rectHeight c) 0
        then getInitialViewport (rectWidth c) (rectHeight c)
        else viewport st
    | None => viewport st
    end.
Proof.
  unfold reset, resetState. rewrite cancel_canvas.
  destruct (canvas st) as [c |].
  - destruct (gtb (rectWidth c) 0 && gtb (rectHeight c) 0);
      simpl; destruct (getInitialPoint _); simpl;
      [reflexivity | apply cancel_viewport].
  - simpl; destruct (getInitialPoint _); simpl. apply cancel_viewport.
Qed.

Lemma reset_scale_pos st :
  0 < scale (viewport st) -> 0 < scale (viewport (reset st)).
Proof.
  intros Hs. rewrite reset_viewport.
  destruct (canvas st) as [c |]; [| assumption].
  destruct (gtb (rectWidth c) 0 && gtb (rectHeight c) 0) eqn:E;
    [| assumption].
  apply andb_true_iff in E. destruct E as [Hw Hh].
  apply gtb_true in Hw. apply gtb_true in Hh.
  apply getInitialViewport_scale_pos; assumption.
Qed.

(** ** The zoom in binary64 *)

(** [handleWheel] has no test of the new scale: the product is installed. *)
Lemma B64_zoomAt_scale zoomFactor mouseX mouseY w h v :
  B64.scale (B64.zoomAt zoomFactor mouseX mouseY w h v)
  = PrimFloat.mul (B64.scale v) zoomFactor.
Proof. reflexivity. Qed.

(** C3, the program at a wheel event with [deltaY] 400000 on the viewport
    of the first render (scale 1), with the cursor at (100, 200) on an
    800 x 600 bitmap: [Math.pow(0.998, 400000)] is 0, so the new scale is
    0, not positive, and [handleWheel] installs it with an infinite centre
    instead of leaving the viewport as it was.  The same scale is reached
    by 931 wheel events of [deltaY] 400, the 930th still leaving a positive
    scale.  From then on the drawing effect returns before painting, and
    the seed search of the next generation returns a NaN point, which
    passes [isPointInTriangle] and from which every later point is NaN. *)
Theorem wheel_installs_zero_scale :
  let v :=
    B64.zoomAt B64.pow0998_400000 B64.cursorX B64.cursorY B64.width800
      B64.height600 B64.firstViewport in
  let seed :=
    fst (B64.findSeedPoint B64.V0 B64.width800 B64.height600 v 0
           B64.quarterDraws 0) in
  (forall zoomFactor mouseX mouseY w h v0,
      B64.scale (B64.zoomAt zoomFactor mouseX mouseY w h v0)
      = PrimFloat.mul (B64.scale v0) zoomFactor) /\
  PrimFloat.ltb PrimFloat.zero (B64.scale B64.firstViewport) = true /\
  PrimFloat.leb
    (PrimFloat.mul (B64.scale B64.firstViewport) B64.pow0998_400000)
    PrimFloat.zero = true /\
  v = B64.mkViewport PrimFloat.infinity PrimFloat.neg_infinity
        PrimFloat.zero /\
  v <> B64.firstViewport /\
  PrimFloat.ltb PrimFloat.zero (B64.scale v) = false /\
  B64.drawReturnsEarly v = true /\
  PrimFloat.ltb PrimFloat.zero
    (B64.scale (B64.wheels 930 B64.pow0998_400 B64.firstViewport)) = true /\
  B64.scale (B64.wheels 931 B64.pow0998_400 B64.firstViewport)
  = PrimFloat.zero /\
  PrimFloat.is_nan (B64.x seed) = true /\
  PrimFloat.is_nan (B64.y seed) = true /\
  B64.isPointInTriangle seed B64.VERTICES = true /\
  (exists next,
      B64.chaosStep seed B64.drawV1 = Some (B64.V1, next) /\
      PrimFloat.is_nan (B64.x next) = true /\
      PrimFloat.is_nan (B64.y next) = true).
Proof.
  intros v seed.
  split; [intros; apply B64_zoomAt_scale |].
  split; [vm_compute; reflexivity |].
  split; [vm_compute; reflexivity |].
  split; [vm_compute; reflexivity |].
  split.
  { intros Heq.
    apply (f_equal (fun u => PrimFloat.ltb PrimFloat.zero (B64.scale u)))
      in Heq.
    vm_compute in Heq. discriminate. }
  split; [vm_compute; reflexivity |].
  split; [vm_compute; reflexivity |].
  split; [vm_compute; reflexivity |].
  split; [vm_compute; reflexivity |].
  split; [vm_compute; reflexivity |].
  split; [vm_compute; reflexivity |].
  split; [vm_compute; reflexivity |].
  exists (B64.midpoint seed B64.V1).
  repeat split; vm_compute; reflexivity.
Qed.

(** The viewport after zooming in and back out at the same cursor. *)
Lemma zoomAt_roundtrip mouseX mouseY deltaY c v :
  0 < scale v ->
  zoomAt mouseX mouseY (- deltaY) c (zoomAt mouseX mouseY deltaY c v) = v.
Proof.
  intros Hs. destruct v as [vx0 vy0 s]. simpl in Hs.
  unfold zoomAt. simpl.
  rewrite Math_pow_opp.
  pose proof (Math_pow_pos 0.998 deltaY) as Hf.
  set (f := Math_pow 0.998 deltaY) in *.
  f_equal; field; lra.
Qed.

(** The world point under the cursor does not move in a zoom. *)
Lemma zoomAt_anchor mouseX mouseY deltaY c v :
  0 < scale v ->
  toWorld mouseX mouseY c (zoomAt mouseX mouseY deltaY c v)
  = toWorld mouseX mouseY c v.
Proof.
  intros Hs. destruct v as [vx0 vy0 s]. simpl in Hs.
  unfold toWorld, zoomAt. simpl.
  pose proof (Math_pow_pos 0.998 deltaY) as Hf.
  set (f := Math_pow 0.998 deltaY) in *.
  f_equal; field; lra.
Qed.

(** The handler of an up-to-date render. *)
Lemma handleWheel_eq clientX clientY deltaY st :
  handleWheel clientX clientY deltaY st
  = handleWheelFrom (viewport st) clientX clientY deltaY st.
Proof. reflexivity. Qed.

(** Of two wheel events taken by the handler of one render, the first is
    overwritten. *)
Lemma handleWheelFrom_overwrites rendered x1 y1 d1 x2 y2 d2 st :
  handleWheelFrom rendered x2 y2 d2 (handleWheelFrom rendered x1 y1 d1 st)
  = handleWheelFrom rendered x2 y2 d2 st.
Proof.
  destruct st as [cv ps cur vp dr ds ppc am ig an hl tr tm nt g spc].
  unfold handleWheelFrom. cbn [canvas].
  destruct cv as [c |]; reflexivity.
Qed.

(** C4, the round trip in the implementation as the specification states
    it: from the viewport of the first render, centre (0.5, 0.433) and
    scale 1, with the cursor at (100, 200) on an 800 x 600 bitmap, the
    zoom by the wheel delta 20000 followed by the zoom by -20000 gives the
    scale 1 again but the centre (300, -100); the two zoom factors have
    the product 1.  With the deltas 400000 and -400000 the factors are 0
    and [Infinity] and the scale after the round trip is NaN. *)
Lemma zoom_roundtrip_loses_centre :
  let v1 :=
    B64.zoomAt B64.pow0998_20000 B64.cursorX B64.cursorY B64.width800
      B64.height600 B64.firstViewport in
  let v2 :=
    B64.zoomAt B64.pow0998_m20000 B64.cursorX B64.cursorY B64.width800
      B64.height600 v1 in
  PrimFloat.mul B64.pow0998_20000 B64.pow0998_m20000 = PrimFloat.one /\
  v2 = B64.lostViewport /\
  B64.near B64.tolerance (B64.vx v2) (B64.vx B64.firstViewport) = false /\
  B64.near B64.tolerance (B64.vy v2) (B64.vy B64.firstViewport) = false /\
  PrimFloat.is_nan
    (B64.scale
       (B64.zoomAt B64.pow0998_m400000 B64.cursorX B64.cursorY B64.width800
          B64.height600
          (B64.zoomAt B64.pow0998_400000 B64.cursorX B64.cursorY
             B64.width800 B64.height600 B64.firstViewport))) = true.
Proof. repeat split; vm_compute; reflexivity. Qed.

(** C4 (amended): in exact arithmetic, for every cursor position, wheel
    delta and viewport with positive scale, zooming by the delta and then
    by its opposite at the same cursor restores scale, x and y, and the
    world point under the cursor is the same before and after each of the
    two zooms.  The handler does the same when the component has rendered
    between the two events; when both events are taken by the handler of
    one render, the first is overwritten.  In binary64 the round trip is
    within 2^-40 of the start for one wheel notch (delta 120) from the
    viewport of the first render; it is not for every delta. *)
Theorem zoom_roundtrip (mouseX mouseY deltaY : R) (c : Canvas) (v : Viewport)
  (Hs : 0 < scale v) :
  let v1 := zoomAt mouseX mouseY deltaY c v in
  let v2 := zoomAt mouseX mouseY (- deltaY) c v1 in
  let b1 :=
    B64.zoomAt B64.pow0998_120 B64.cursorX B64.cursorY B64.width800
      B64.height600 B64.firstViewport in
  let b2 :=
    B64.zoomAt B64.pow0998_m120 B64.cursorX B64.cursorY B64.width800
      B64.height600 b1 in
  scale v2 = scale v /\ vx v2 = vx v /\ vy v2 = vy v /\
  toWorld mouseX mouseY c v1 = toWorld mouseX mouseY c v /\
  toWorld mouseX mouseY c v2 = toWorld mouseX mouseY c v1 /\
  (forall st, viewport st = v ->
     let st1 := handleWheelFrom v mouseX mouseY deltaY st in
     handleWheelFrom (viewport st1) mouseX mouseY (- deltaY) st1 = st /\
     handleWheelFrom v mouseX mouseY (- deltaY) st1
     = handleWheelFrom v mouseX mouseY (- deltaY) st) /\
  B64.near B64.tolerance (B64.scale b2) (B64.scale B64.firstViewport)
  = true /\
  B64.near B64.tolerance (B64.vx b2) (B64.vx B64.firstViewport) = true /\
  B64.near B64.tolerance (B64.vy b2) (B64.vy B64.firstViewport) = true.
Proof.
  intros v1 v2 b1 b2.
  assert (E : v2 = v) by (apply zoomAt_roundtrip; assumption).
  assert (Hs1 : 0 < scale v1) by (apply zoomAt_scale_pos; assumption).
  rewrite E.
  split; [reflexivity |]. split; [reflexivity |]. split; [reflexivity |].
  split; [apply zoomAt_anchor; assumption |].
  split; [rewrite <- E at 1; apply zoomAt_anchor; assumption |].
  split; [| repeat split; vm_compute; reflexivity].
  intros st Hv st1. split; [| apply handleWheelFrom_overwrites].
  unfold st1, handleWheelFrom.
  destruct st as [cv ps cur vp dr ds ppc am ig an hl tr tm nt g spc].
  simpl in *. subst vp.
  destruct cv as [c' |]; simpl; [| reflexivity].
  rewrite zoomAt_roundtrip by assumption. reflexivity.
Qed.

Lemma zoom_roundtrip_witness :
  let v := mkViewport 0.5 0.433 1 in
  let v1 := zoomAt 100 200 120 canvas800 v in
  let v2 := zoomAt 100 200 (- 120) canvas800 v1 in
  scale v2 = scale v /\ vx v2 = vx v /\ vy v2 = vy v.
Proof.
  intros v v1 v2.
  assert (Hs : 0 < scale v) by (simpl; lra).
  pose proof (zoom_roundtrip 100 200 120 canvas800 v Hs)
    as (H1 & H2 & H3 & _).
  repeat split; assumption.
Defined.

(** ** The highlight queue *)

Lemma updateHighlights_recent t ts :
  updateHighlights t (recentHighlights ts) = recentHighlights (ts ++ [t]).
Proof.
  unfold recentHighlights. rewrite rev_app_distr. simpl rev. simpl app.
  destruct (rev ts) as [| a [| b [| c [| d l]]]]; reflexivity.
Qed.

Lemma highlightsAfter_snoc ts t q :
  highlightsAfter (ts ++ [t]) q = updateHighlights t (highlightsAfter ts q).
Proof. unfold highlightsAfter. rewrite fold_left_app. reflexivity. Qed.

Lemma highlightsAfter_recent ts :
  highlightsAfter ts [] = recentHighlights ts.
Proof.
  induction ts as [| t ts IH] using rev_ind.
  - reflexivity.
  - rewrite highlightsAfter_snoc, IH. apply updateHighlights_recent.
Qed.

Lemma recentHighlights_length ts :
  length (recentHighlights ts) = Nat.min (length ts) 4.
Proof.
  unfold recentHighlights.
  rewrite length_map, length_combine, length_firstn, length_rev.
  change (length [4; 3; 2; 1]%Z) with 4%nat. lia.
Qed.

Lemma recentHighlights_lives ts :
  map life (recentHighlights ts) = firstn (length ts) [4; 3; 2; 1]%Z.
Proof.
  unfold recentHighlights. rewrite <- (length_rev ts).
  destruct (rev ts) as [| a [| b [| c [| d l]]]];
    simpl; rewrite ?firstn_nil; reflexivity.
Qed.

Lemma recentHighlights_vertices ts :
  map vertex (recentHighlights ts) = firstn 4 (rev ts).
Proof.
  unfold recentHighlights.
  destruct (rev ts) as [| a [| b [| c [| d l]]]]; reflexivity.
Qed.


(** ** The oracle *)

Lemma advance_0 g : advance 0 g = g.
Proof. destruct g; reflexivity. Qed.

Lemma advance_advance a b g : advance a (advance b g) = advance (a + b) g.
Proof. unfold advance; simpl. f_equal. lia. Qed.

Lemma unitDraws_advance n g : unitDraws g -> unitDraws (advance n g).
Proof. intros H i. apply H. Qed.

Lemma Math_random_eq g : Math_random g = (draws g (pos g), advance 1 g).
Proof. reflexivity. Qed.

Lemma getInitialPoint_eq g : getInitialPoint g = (fallbackPoint g, advance 2 g).
Proof.
  unfold getInitialPoint, fallbackPoint, bind, Math_random, ret. simpl.
  destruct (reflect _ _); reflexivity.
Qed.

(** A render after the first draws two numbers and changes nothing else. *)
Lemma render_eq st : render st = setRng (advance 2 (rng st)) st.
Proof. unfold render. rewrite getInitialPoint_eq. reflexivity. Qed.

(** ** Seed reacquisition *)

Lemma reflect_simplex s t :
  0 <= s < 1 -> 0 <= t < 1 ->
  0 <= fst (reflect s t) /\ 0 <= snd (reflect s t)
  /\ fst (reflect s t) + snd (reflect s t) <= 1.
Proof.
  intros Hs Ht. unfold reflect.
  destruct (gtb (s + t) 1) eqn:E; simpl.
  - apply gtb_true in E. lra.
  - apply gtb_false in E. lra.
Qed.

Lemma barycentric_coords s t :
  x (barycentric s t) = s + 0.5 * t /\ y (barycentric s t) = sqrt075 * t.
Proof. simpl. split; lra. Qed.

Lemma barycentric_inside s t :
  0 <= s -> 0 <= t -> s + t <= 1 ->
  isPointInTriangle (barycentric s t) VERTICES = true.
Proof.
  intros Hs Ht Hst. apply inside_VERTICES.
  destruct (barycentric_coords s t) as [-> ->].
  pose proof sqrt075_pos as Hh. repeat split; nra.
Qed.

Lemma fallbackPoint_inside g :
  unitDraws g -> isPointInTriangle (fallbackPoint g) VERTICES = true.
Proof.
  intros Hg. unfold fallbackPoint.
  pose proof (reflect_simplex _ _ (Hg (pos g)) (Hg (1 + pos g)%nat))
    as (Hs & Ht & Hst).
  destruct (reflect _ _) as [s t]. simpl in *.
  apply barycentric_inside; assumption.
Qed.

Section SeedLoop.

Variables xMin yMin worldWidth worldHeight : R.


Lemma tried_shift g i : tried xMin yMin worldWidth worldHeight (advance 2 g) i
  = tried xMin yMin worldWidth worldHeight g (S i).
Proof.
  unfold tried. cbn [draws pos advance].
  replace (2 * i + (2 + pos g))%nat with (2 * S i + pos g)%nat by lia.
  replace (2 * i + 1 + (2 + pos g))%nat with (2 * S i + 1 + pos g)%nat
    by lia.
  reflexivity.
Qed.

Lemma seedLoop_S n g :
  seedLoop (S n) xMin yMin worldWidth worldHeight g
  = if isPointInTriangle (tried xMin yMin worldWidth worldHeight g 0) VERTICES
    then (Some (tried xMin yMin worldWidth worldHeight g 0), advance 2 g)
    else seedLoop n xMin yMin worldWidth worldHeight (advance 2 g).
Proof.
  assert (E0 : mkPoint (xMin + draws g (pos g) * worldWidth)
                 (yMin + draws g (S (pos g)) * worldHeight)
               = tried xMin yMin worldWidth worldHeight g 0).
  { unfold tried.
    replace (2 * 0 + pos g)%nat with (pos g) by lia.
    replace (2 * 0 + 1 + pos g)%nat with (S (pos g)) by lia.
    reflexivity. }
  simpl seedLoop. unfold bind, Math_random. cbn [draws pos].
  rewrite E0.
  destruct (isPointInTriangle _ VERTICES); reflexivity.
Qed.

(** The loop returns the first accepted candidate, or runs out after
    consuming two draws per iteration. *)
Lemma seedLoop_first n : forall g,
  (exists i, (i < n)%nat
     /\ (forall j, (j < i)%nat ->
           isPointInTriangle
             (tried xMin yMin worldWidth worldHeight g j) VERTICES = false)
     /\ isPointInTriangle
          (tried xMin yMin worldWidth worldHeight g i) VERTICES = true
     /\ seedLoop n xMin yMin worldWidth worldHeight g
        = (Some (tried xMin yMin worldWidth worldHeight g i),
           advance (2 * S i) g))
  \/ ((forall j, (j < n)%nat ->
         isPointInTriangle
           (tried xMin yMin worldWidth worldHeight g j) VERTICES = false)
      /\ seedLoop n xMin yMin worldWidth worldHeight g
         = (None, advance (2 * n) g)).
Proof.
  induction n as [| n IH]; intros g.
  - right. split; [intros j Hj; lia |].
    simpl. unfold ret. rewrite advance_0. reflexivity.
  - rewrite seedLoop_S.
    destruct (isPointInTriangle
                (tried xMin yMin worldWidth worldHeight g 0) VERTICES)
      eqn:Hacc.
    + left. exists 0%nat. repeat split; try lia; try assumption.
    + destruct (IH (advance 2 g))
        as [(i & Hi & Hrej & Hok & Hres) | [Hrej Hres]].
      * left. exists (S i). rewrite tried_shift in Hok.
        repeat split; try lia; try assumption.
        -- intros [| j] Hj; [assumption |].
           rewrite <- tried_shift. apply Hrej. lia.
        -- rewrite Hres, tried_shift, advance_advance.
           do 2 f_equal. lia.
      * right. split.
        -- intros [| j] Hj; [assumption |].
           rewrite <- tried_shift. apply Hrej. lia.
        -- rewrite Hres, advance_advance. do 2 f_equal. lia.
Qed.

End SeedLoop.

Lemma needsSeed_true current c st :
  needsSeed current c st = true
  <-> points st = [] \/ ~ inView c (viewport st) current.
Proof.
  unfold needsSeed, isPointInView, inView.
  rewrite orb_true_iff, negb_true_iff, Nat.eqb_eq, length_zero_iff_nil.
  rewrite !andb_false_iff, !geb_false, !leb_false.
  set (ww := width c / scale (viewport st)).
  set (wh := height c / scale (viewport st)).
  split; (intros [H | H]; [left; assumption | right]).
  - lra.
  - destruct (Rlt_dec (x current) (vx (viewport st) - ww / 2)) as [? | N1];
      [tauto |].
    destruct (Rlt_dec (vx (viewport st) + ww / 2) (x current)) as [? | N2];
      [tauto |].
    destruct (Rlt_dec (y current) (vy (viewport st) - wh / 2)) as [? | N3];
      [tauto |].
    right. apply Rnot_le_lt. intros Hle. apply H.
    apply Rnot_lt_le in N1, N2, N3. repeat split; assumption.
Qed.



(** What [findSeedPoint] returns when it looks for a fresh seed. *)
Lemma findSeedPoint_triggered current st c g :
  canvas st = Some c -> needsSeed current c st = true ->
  (exists i, (i < 100)%nat
     /\ (forall j, (j < i)%nat ->
           isPointInTriangle (candidate c (viewport st) g j) VERTICES = false)
     /\ isPointInTriangle (candidate c (viewport st) g i) VERTICES = true
     /\ findSeedPoint current st g
        = (candidate c (viewport st) g i, advance (2 * S i) g))
  \/ ((forall j, (j < 100)%nat ->
         isPointInTriangle (candidate c (viewport st) g j) VERTICES = false)
      /\ findSeedPoint current st g
         = (fallbackPoint (advance 200 g), advance 202 g)).
Proof.
  intros Hc Hneed. unfold findSeedPoint. rewrite Hc, Hneed.
  unfold bind.
  destruct (seedLoop_first
              (vx (viewport st) - width c / scale (viewport st) / 2)
              (vy (viewport st) - height c / scale (viewport st) / 2)
              (width c / scale (viewport st))
              (height c / scale (viewport st)) 100 g)
    as [(i & Hi & Hrej & Hok & Hres) | [Hrej Hres]].
  - left. exists i. rewrite Hres. repeat split; assumption.
  - right. rewrite Hres. split; [assumption |].
    rewrite getInitialPoint_eq, advance_advance. reflexivity.
Qed.

Lemma findSeedPoint_kept current st c g :
  canvas st = Some c -> needsSeed current c st = false ->
  findSeedPoint current st g = (current, g).
Proof.
  intros Hc Hneed. unfold findSeedPoint. rewrite Hc, Hneed. reflexivity.
Qed.

(** Without a canvas [findSeedPoint] is [getInitialPoint]. *)
Lemma findSeedPoint_unmounted current st g :
  canvas st = None ->
  findSeedPoint current st g = (fallbackPoint g, advance 2 g).
Proof.
  intros Hc. unfold findSeedPoint. rewrite Hc. apply getInitialPoint_eq.
Qed.

(** [findSeedPoint] only reads draws: the oracle moves forward. *)
Lemma findSeedPoint_advance current st g :
  exists m, snd (findSeedPoint current st g) = advance m g.
Proof.
  destruct (canvas st) as [c |] eqn:Hc.
  - destruct (needsSeed current c st) eqn:Hneed.
    + destruct (findSeedPoint_triggered current st c g Hc Hneed)
        as [(i & _ & _ & _ & Hres) | [_ Hres]]; rewrite Hres; simpl; eauto.
    + rewrite (findSeedPoint_kept current st c g Hc Hneed).
      exists 0%nat. simpl. symmetry. apply advance_0.
  - unfold findSeedPoint. rewrite Hc, getInitialPoint_eq. simpl. eauto.
Qed.

Lemma findSeedPoint_unitDraws current st g :
  unitDraws g -> unitDraws (snd (findSeedPoint current st g)).
Proof.
  intros Hg. destruct (findSeedPoint_advance current st g) as [m ->].
  apply unitDraws_advance; assumption.
Qed.

(** ** Seed reacquisition in binary64 *)







Lemma unitDraws_zeroRng : unitDraws zeroRng.
Proof. intros i. simpl. lra. Qed.

Lemma initialState_eq c g :
  initialState c g
  = mkAppState c [] (fallbackPoint g) (mkViewport 0.5 0.433 1) false
      (mkPoint 0 0) P100 false false None [] None [] 1 (advance 2 g) 0.
Proof. unfold initialState. rewrite getInitialPoint_eq. reflexivity. Qed.


(** ** Batch generation *)

Lemma targetAt_vertex g k :
  unitDraws g ->
  vertexAt (Math_floor (draws g (k + pos g) * 3)) = Some (targetAt g k)
  /\ (targetAt g k = V0 \/ targetAt g k = V1 \/ targetAt g k = V2).
Proof.
  intros Hg. unfold targetAt.
  destruct (vertexAt_floor3 _ (Hg (k + pos g)%nat)) as (v & -> & Hv).
  auto.
Qed.

(** One step from the [j]-th point of the game. *)
Lemma chaosStep_pointAt g seed j :
  unitDraws g ->
  chaosStep (pointAt g seed j) (advance j g)
  = (Some (targetAt g j, pointAt g seed (S j)), advance (S j) g).
Proof.
  intros Hg. unfold chaosStep, bind, Math_random, ret.
  cbn [draws pos advance].
  destruct (targetAt_vertex g j Hg) as [-> _]. reflexivity.
Qed.

Lemma orbitFrom_S g seed j n :
  orbitFrom g seed j (S n) = pointAt g seed (S j) :: orbitFrom g seed (S j) n.
Proof. reflexivity. Qed.

Lemma orbitFrom_snoc g seed j n :
  orbitFrom g seed j (S n)
  = orbitFrom g seed j n ++ [pointAt g seed (S (j + n))].
Proof. unfold orbitFrom. rewrite seq_S, map_app. reflexivity. Qed.

Lemma orbit_length g seed n : length (orbit g seed n) = n.
Proof.
  unfold orbit, orbitFrom. rewrite length_map, length_seq. reflexivity.
Qed.

Lemma orbit_nth g seed n k :
  (k < n)%nat -> nth_error (orbit g seed n) k = Some (pointAt g seed (S k)).
Proof.
  intros Hk. unfold orbit, orbitFrom.
  rewrite nth_error_map, nth_error_seq.
  destruct (Nat.ltb_spec k n); [reflexivity | lia].
Qed.

(** The loop of [generateInstantly] from the [j]-th point of the game. *)
Lemma generateLoop_orbit g seed n : forall j newPoints,
  unitDraws g ->
  generateLoop n (pointAt g seed j) newPoints (advance j g)
  = (Some (pointAt g seed (j + n), newPoints ++ orbitFrom g seed j n),
     advance (j + n) g).
Proof.
  induction n as [| n IH]; intros j newPoints Hg.
  - simpl. unfold ret. rewrite Nat.add_0_r, app_nil_r. reflexivity.
  - simpl generateLoop. unfold bind.
    rewrite chaosStep_pointAt by assumption.
    rewrite IH by assumption.
    rewrite orbitFrom_S, <- app_assoc. simpl app.
    replace (S j + n)%nat with (j + S n)%nat by lia. reflexivity.
Qed.

Lemma generateInstantly_eq st :
  unitDraws (rng st) ->
  let seed := fst (findSeedPoint (currentPointRef st) st (rng st)) in
  let g := snd (findSeedPoint (currentPointRef st) st (rng st)) in
  let n := pointsValue (pointsPerClick st) in
  generateInstantly st
  = Some (setPoints (points st ++ orbit g seed n)
            (setCurrentPointRef (pointAt g seed n)
               (setRng (advance n g) st))).
Proof.
  intros Hg seed g n.
  pose proof (findSeedPoint_unitDraws (currentPointRef st) st (rng st) Hg)
    as Hg'.
  unfold generateInstantly.
  fold n. subst seed g.
  destruct (findSeedPoint (currentPointRef st) st (rng st)) as [seed g].
  cbn [fst snd] in *.
  pose proof (generateLoop_orbit g seed n 0 [] Hg') as Hloop.
  rewrite advance_0 in Hloop. cbn [pointAt] in Hloop.
  rewrite Hloop. reflexivity.
Qed.



(** ** The animation *)

(** A tick: [step(count)] for [count < 100]. *)
Lemma step_tick count localCurrent st :
  (count < 100)%nat -> 0 <= draws (rng st) (pos (rng st)) < 1 ->
  exists target,
    vertexAt (Math_floor (draws (rng st) (pos (rng st)) * 3)) = Some target
    /\ (target = V0 \/ target = V1 \/ target = V2)
    /\ step count localCurrent st
       = Some
           (mkAppState (canvas st)
              (points st ++ [midpoint localCurrent target])
              (currentPointRef st) (viewport st) (isDragging st)
              (dragStartRef st) (pointsPerClick st) (isAnimationMode st)
              (isGenerating st)
              (Some (mkAnimationStep localCurrent target
                       (midpoint localCurrent target)))
              (updateHighlights target (highlightedVertices st))
              (Some (nextTimerId st))
              (timers st
               ++ [mkTimer (nextTimerId st) 100 (count + 1)
                     (midpoint localCurrent target)])
              (S (nextTimerId st)) (advance 1 (rng st))
              (S (setPointsCalls st))).
Proof.
  intros Hlt Hr.
  destruct (chaosStep_ok localCurrent (rng st) Hr) as (target & Hs & Hv & Hin).
  exists target. split; [assumption |]. split; [assumption |].
  unfold step.
  destruct (Nat.leb_spec 100 count) as [Hge | _]; [lia |].
  rewrite Hs. reflexivity.
Qed.

(** The last call: [step(count)] for [count >= 100]. *)
Lemma step_finish count localCurrent st :
  (100 <= count)%nat ->
  step count localCurrent st
  = Some
      (mkAppState (canvas st) (points st) localCurrent (viewport st)
         (isDragging st) (dragStartRef st) (pointsPerClick st)
         (isAnimationMode st) false None [] (animationTimeoutRef st)
         (timers st) (nextTimerId st) (rng st) (setPointsCalls st)).
Proof.
  intros Hge. unfold step.
  destruct (Nat.leb_spec 100 count) as [_ | Hlt]; [reflexivity | lia].
Qed.

(** ** The chaos-game step in binary64 *)

Lemma B64_chaosStep_ok current r target next :
  B64.chaosStep current r = Some (target, next) ->
  (target = B64.V0 \/ target = B64.V1 \/ target = B64.V2) /\
  next = B64.midpoint current target.
Proof.
  unfold B64.chaosStep, B64.vertexAtFloor.
  abstract_comparisons.
  repeat match goal with b : bool |- _ => destruct b end;
    intros [= <- <-] || discriminate; auto.
Qed.

(** The vertex that some draws select, whatever the current point: 0, 0.5
    and 0.9 select the three vertices in turn, the largest draw below 1
    selects the last one, and the draw 0.3333333333333333 selects the
    second one, its product with 3 being rounded to 1. *)
Lemma B64_chaosStep_draws current :
  B64.chaosStep current B64.drawV0
  = Some (B64.V0, B64.midpoint current B64.V0) /\
  B64.chaosStep current B64.drawV1
  = Some (B64.V1, B64.midpoint current B64.V1) /\
  B64.chaosStep current B64.drawV2
  = Some (B64.V2, B64.midpoint current B64.V2) /\
  B64.chaosStep current B64.drawLast
  = Some (B64.V2, B64.midpoint current B64.V2) /\
  B64.chaosStep current B64.drawThird
  = Some (B64.V1, B64.midpoint current B64.V1).
Proof.
  unfold B64.chaosStep.
  repeat match goal with
         | |- context [B64.vertexAtFloor ?e] =>
             let v := eval vm_compute in (B64.vertexAtFloor e) in
             change (B64.vertexAtFloor e) with v
         end.
  repeat split.
Qed.

(** C1, the preservation of the hull as the specification states it: the
    point (0.75, 0.4330127018922193) passes [isPointInTriangle], the step
    from it towards the vertex (0.5, sqrt 0.75) returns
    (0.625, 0.649519052838329), and that point does not pass. *)
Lemma midpoint_leaves_triangle :
  B64.isPointInTriangle B64.edgePoint B64.VERTICES = true /\
  B64.chaosStep B64.edgePoint B64.drawV2
  = Some (B64.V2, B64.nearEdgePoint) /\
  B64.isPointInTriangle B64.nearEdgePoint B64.VERTICES = false.
Proof. repeat split; vm_compute; reflexivity. Qed.

(** C1 (amended): for every current point and every target vertex, one of
    the three fixed vertices, the midpoint of the two is
    0.5 * current + 0.5 * target in each coordinate and lies in the convex
    hull of the triangle whenever the current point does, in exact
    arithmetic; when the draw selects that vertex, it is the point that
    an iteration of the loop of [generateInstantly] pushes and continues
    from, and the point that a tick of [animateGeneration] publishes and
    appends; every draw in [0, 1) selects a vertex.  In binary64 the step
    returns one of the three vertices and the rounded midpoint
    ((current.x + target.x) / 2, (current.y + target.y) / 2); each vertex
    is selected by some draw, and the largest draw below 1 selects the
    last one. *)
Theorem step_midpoint_in_hull (current target : Point)
  (Hv : isVertex target) :
  x (midpoint current target) = 0.5 * x current + 0.5 * x target /\
  y (midpoint current target) = 0.5 * y current + 0.5 * y target /\
  (inHull current -> inHull (midpoint current target)) /\
  (forall g,
      vertexAt (Math_floor (draws g (pos g) * 3)) = Some target ->
      chaosStep current g
      = (Some (target, midpoint current target), advance 1 g) /\
      (forall n newPoints,
          generateLoop (S n) current newPoints g
          = generateLoop n (midpoint current target)
              (newPoints ++ [midpoint current target]) (advance 1 g)) /\
      (forall count st, (count < 100)%nat -> rng st = g ->
          exists st',
            step count current st = Some st' /\
            animationStep st'
            = Some (mkAnimationStep current target
                      (midpoint current target)) /\
            points st' = points st ++ [midpoint current target])) /\
  (forall g, 0 <= draws g (pos g) < 1 ->
      exists t, isVertex t /\
                vertexAt (Math_floor (draws g (pos g) * 3)) = Some t) /\
  (forall c r t n,
      B64.chaosStep c r = Some (t, n) ->
      (t = B64.V0 \/ t = B64.V1 \/ t = B64.V2) /\
      B64.x n
      = PrimFloat.div (PrimFloat.add (B64.x c) (B64.x t)) PrimFloat.two /\
      B64.y n
      = PrimFloat.div (PrimFloat.add (B64.y c) (B64.y t)) PrimFloat.two) /\
  (forall c,
      B64.chaosStep c B64.drawV0 = Some (B64.V0, B64.midpoint c B64.V0) /\
      B64.chaosStep c B64.drawV1 = Some (B64.V1, B64.midpoint c B64.V1) /\
      B64.chaosStep c B64.drawV2 = Some (B64.V2, B64.midpoint c B64.V2) /\
      B64.chaosStep c B64.drawLast = Some (B64.V2, B64.midpoint c B64.V2)).
Proof.
  destruct (midpoint_half current target) as [Hx Hy].
  split; [exact Hx |]. split; [exact Hy |].
  split; [rewrite <- !inside_iff_inHull; apply midpoint_inside; exact Hv |].
  split; [| split; [| split]].
  - intros g Hg.
    assert (Hstep : chaosStep current g
                    = (Some (target, midpoint current target), advance 1 g)).
    { unfold chaosStep, bind, Math_random. rewrite Hg. reflexivity. }
    split; [exact Hstep |]. split.
    + intros n newPoints. cbn [generateLoop]. unfold bind at 1.
      rewrite Hstep. reflexivity.
    + intros count st Hlt Hrng. subst g.
      unfold step.
      destruct (Nat.leb_spec 100 count) as [Hge | _]; [lia |].
      rewrite Hstep. eexists. split; [reflexivity |]. split; reflexivity.
  - intros g Hg. destruct (vertexAt_floor3 _ Hg) as (t & Ht & Hin).
    exists t. split; assumption.
  - intros c r t n Hs. apply B64_chaosStep_ok in Hs.
    destruct Hs as [Ht ->]. split; [exact Ht |]. split; reflexivity.
  - intros c.
    destruct (B64_chaosStep_draws c) as (H0 & H1 & H2 & H3 & _).
    repeat split; assumption.
Qed.

Lemma step_midpoint_in_hull_witness :
  inHull (midpoint (mkPoint 0.5 0.25) V0) /\
  x (midpoint (mkPoint 0.5 0.25) V0) = 0.5 * 0.5 + 0.5 * 0.
Proof.
  assert (Hv : isVertex V0) by (left; reflexivity).
  destruct (step_midpoint_in_hull (mkPoint 0.5 0.25) V0 Hv)
    as (Hx & _ & Hhull & _).
  split; [| exact Hx].
  apply Hhull. apply inside_iff_inHull, inside_VERTICES. simpl.
  pose proof sqrt075_bounds. lra.
Defined.

(** ** Runs of the animation *)

Lemma targets_snoc g j :
  map (targetAt g) (seq 0 (S j)) = map (targetAt g) (seq 0 j) ++ [targetAt g j].
Proof. rewrite seq_S, map_app. reflexivity. Qed.

Lemma orbit_snoc g seed j :
  orbit g seed (S j) = orbit g seed j ++ [pointAt g seed (S j)].
Proof. unfold orbit. rewrite orbitFrom_snoc. reflexivity. Qed.

(** [step(j)] of a run, from the state at which it is called. *)
Lemma step_pointAt g seed j st :
  (j < 100)%nat -> unitDraws g -> rng st = advance j g ->
  step j (pointAt g seed j) st
  = Some
      (mkAppState (canvas st) (points st ++ [pointAt g seed (S j)])
         (currentPointRef st) (viewport st) (isDragging st)
         (dragStartRef st) (pointsPerClick st) (isAnimationMode st)
         (isGenerating st)
         (Some (mkAnimationStep (pointAt g seed j) (targetAt g j)
                  (pointAt g seed (S j))))
         (updateHighlights (targetAt g j) (highlightedVertices st))
         (Some (nextTimerId st))
         (timers st
          ++ [mkTimer (nextTimerId st) 100 (S j) (pointAt g seed (S j))])
         (S (nextTimerId st)) (advance (S j) g)
         (S (setPointsCalls st))).
Proof.
  intros Hlt Hg Hrng.
  assert (Hr : 0 <= draws (rng st) (pos (rng st)) < 1)
    by (rewrite Hrng; apply Hg).
  destruct (step_tick j (pointAt g seed j) st Hlt Hr)
    as (target & Hv & _ & Hstep).
  rewrite Hrng in Hv. cbn [draws pos advance] in Hv.
  destruct (targetAt_vertex g j Hg) as [Hv' _].
  rewrite Hv' in Hv. injection Hv as <-.
  rewrite Hstep, Hrng, advance_advance, Nat.add_1_r. reflexivity.
Qed.

(** Starting the animation from a state with nothing pending. *)
Lemma animateGeneration_eq st :
  timers st = [] -> unitDraws (rng st) ->
  animateGeneration st
  = Some (tickState st
            (fst (findSeedPoint (currentPointRef st) st (rng st)))
            (snd (findSeedPoint (currentPointRef st) st (rng st))) 0).
Proof.
  intros Ht Hg.
  pose proof (findSeedPoint_unitDraws (currentPointRef st) st (rng st) Hg)
    as Hg'.
  unfold animateGeneration.
  change (findSeedPoint
            (currentPointRef (setAnimationStep None (setIsGenerating true st)))
            (setAnimationStep None (setIsGenerating true st))
            (rng (setAnimationStep None (setIsGenerating true st))))
    with (findSeedPoint (currentPointRef st) st (rng st)).
  destruct (findSeedPoint (currentPointRef st) st (rng st)) as [seed g].
  cbn [fst snd] in *.
  rewrite (step_pointAt g seed 0);
    [| lia | assumption | symmetry; apply advance_0].
  unfold tickState. fields. cbn [app]. rewrite Ht, !Nat.add_0_r, Nat.add_1_r.
  reflexivity.
Qed.

Lemma fireTimer_single id delay count local st :
  timers st = [mkTimer id delay count local] ->
  fireTimer id st = step count local (setTimers [] (nextTimerId st) st).
Proof.
  intros Ht. unfold fireTimer, clearTimeout. rewrite Ht.
  cbn [find filter timerId timerCount timerLocal].
  rewrite Nat.eqb_refl. reflexivity.
Qed.

(** The pending callback of a run fires: the next tick. *)
Lemma firePending_tick st seed g j :
  (S j < 100)%nat -> unitDraws g ->
  firePending (tickState st seed g j) = Some (tickState st seed g (S j)).
Proof.
  intros Hlt Hg. unfold firePending. cbn [timers tickState timerId handle].
  rewrite (fireTimer_single (nextTimerId st + j) 100 (S j)
             (pointAt g seed (S j))) by reflexivity.
  rewrite (step_pointAt g seed (S j)) by (assumption || reflexivity).
  unfold tickState.
  cbn [canvas points currentPointRef viewport isDragging dragStartRef
       pointsPerClick isAnimationMode isGenerating animationStep
       highlightedVertices animationTimeoutRef timers nextTimerId rng
       setPointsCalls setTimers app].
  rewrite <- app_assoc, <- orbit_snoc.
  rewrite <- highlightsAfter_snoc, <- targets_snoc.
  replace (S (nextTimerId st + j)) with (nextTimerId st + S j)%nat by lia.
  replace (S (setPointsCalls st + S j)) with (setPointsCalls st + S (S j))%nat
    by lia.
  reflexivity.
Qed.

(** The callback scheduled by [step(99)] fires: [step(100)] ends the run. *)
Lemma firePending_last st seed g :
  firePending (tickState st seed g 99) = Some (finishedState st seed g).
Proof.
  unfold firePending. cbn [timers tickState timerId handle].
  rewrite (fireTimer_single (nextTimerId st + 99) 100 100
             (pointAt g seed 100)) by reflexivity.
  rewrite step_finish by lia. reflexivity.
Qed.

Lemma fireN_ticks st seed g k : forall j,
  (j + k < 100)%nat -> unitDraws g ->
  fireN k (tickState st seed g j) = Some (tickState st seed g (j + k)).
Proof.
  induction k as [| k IH]; intros j Hlt Hg.
  - rewrite Nat.add_0_r. reflexivity.
  - cbn [fireN]. rewrite firePending_tick by (assumption || lia).
    rewrite IH by (assumption || lia).
    replace (S j + k)%nat with (j + S k)%nat by lia. reflexivity.
Qed.

Lemma fireN_app a b st :
  fireN (a + b) st
  = match fireN a st with Some st' => fireN b st' | None => None end.
Proof.
  revert st. induction a as [| a IH]; intros st; cbn [fireN Nat.add].
  - reflexivity.
  - destruct (firePending st); [apply IH | reflexivity].
Qed.

Lemma fireN_run st seed g :
  unitDraws g ->
  fireN 100 (tickState st seed g 0) = Some (finishedState st seed g).
Proof.
  intros Hg. change 100%nat with (99 + 1)%nat at 1.
  rewrite fireN_app, (fireN_ticks st seed g 99 0) by (assumption || lia).
  cbn [fireN Nat.add]. rewrite firePending_last. reflexivity.
Qed.

Lemma mountedState_Idle : Idle mountedState.
Proof. unfold mountedState. rewrite initialState_eq. split; reflexivity. Qed.

Lemma mountedState_unitDraws : unitDraws (rng mountedState).
Proof.
  unfold mountedState. rewrite initialState_eq. cbn [rng].
  apply unitDraws_advance, unitDraws_zeroRng.
Qed.

(** C2, the last tick as the specification states it: once all 100 ticks
    of a run have happened ([step(0)] in [animateGeneration] and 99 fired
    timeouts, the last of them running [step(99)]), the controller is not
    idle: [step(99)] has scheduled [step(100)] after 100 ms, the run is
    still marked as generating, and the snapshot and the highlight queue
    are not empty. *)
Lemma last_tick_reschedules :
  exists st0 st99,
    animateGeneration mountedState = Some st0 /\
    fireN 99 st0 = Some st99 /\
    length (points st99) = 100%nat /\
    isGenerating st99 = true /\
    map timerCount (timers st99) = [100%nat] /\
    map timerDelay (timers st99) = [100] /\
    animationStep st99 <> None /\
    highlightedVertices st99 <> [].
Proof.
  pose proof mountedState_Idle as [_ Ht].
  pose proof mountedState_unitDraws as Hg.
  pose proof (findSeedPoint_unitDraws (currentPointRef mountedState)
                mountedState (rng mountedState) Hg) as Hg'.
  eexists. eexists.
  split; [apply animateGeneration_eq; assumption |].
  split; [apply (fireN_ticks _ _ _ 99 0); [lia | assumption] |].
  cbn [Nat.add tickState points isGenerating timers map timerCount
       timerDelay animationStep highlightedVertices].
  split.
  { rewrite length_app, orbit_length.
    unfold mountedState. rewrite initialState_eq. reflexivity. }
  split; [reflexivity |].
  split; [reflexivity |].
  split; [reflexivity |].
  split; [discriminate |].
  intros Hnil. apply (f_equal (@length _)) in Hnil.
  unfold mountedState in Hnil. rewrite initialState_eq in Hnil.
  cbn [highlightedVertices] in Hnil.
  rewrite highlightsAfter_recent, recentHighlights_length in Hnil.
  rewrite length_map, length_seq in Hnil. discriminate.
Qed.

(** C2 (amended): a run started from an idle state consists of exactly 100
    ticks, [step(0)] in [animateGeneration] and [step(1)] .. [step(99)] in
    99 fired timeouts; each tick appends one point with one [setPoints]
    call and, for every [count < 100], schedules [step(count + 1)] after
    100 ms.  The controller goes back to idle in the 101st call,
    [step(100)], when the timeout scheduled by [step(99)] fires: that call
    appends nothing, stores the last point in [currentPointRef] and empties
    the snapshot and the highlight queue.  The run adds exactly 100
    points. *)
Theorem animation_run (st : AppState) (Hidle : Idle st)
  (Hg : unitDraws (rng st)) :
  let seed := fst (findSeedPoint (currentPointRef st) st (rng st)) in
  let g := snd (findSeedPoint (currentPointRef st) st (rng st)) in
  animateGeneration st = Some (tickState st seed g 0) /\
  (forall j, (j < 100)%nat ->
     fireN j (tickState st seed g 0) = Some (tickState st seed g j) /\
     isGenerating (tickState st seed g j) = true /\
     points (tickState st seed g j) = points st ++ orbit g seed (S j) /\
     length (points (tickState st seed g j))
     = (length (points st) + S j)%nat /\
     setPointsCalls (tickState st seed g j)
     = (setPointsCalls st + S j)%nat /\
     timers (tickState st seed g j)
     = [mkTimer (nextTimerId st + j) 100 (S j) (pointAt g seed (S j))]) /\
  (forall j, (S j < 100)%nat ->
     points (tickState st seed g (S j))
     = points (tickState st seed g j) ++ [pointAt g seed (S (S j))]) /\
  (forall count localCurrent s,
     (count < 100)%nat -> unitDraws (rng s) ->
     exists target s',
       step count localCurrent s = Some s' /\
       points s' = points s ++ [midpoint localCurrent target] /\
       timers s'
       = timers s ++ [mkTimer (nextTimerId s) 100 (count + 1)
                        (midpoint localCurrent target)] /\
       isGenerating s' = isGenerating s /\
       animationStep s'
       = Some (mkAnimationStep localCurrent target
                 (midpoint localCurrent target))) /\
  (forall count localCurrent s,
     (100 <= count)%nat ->
     exists s',
       step count localCurrent s = Some s' /\
       points s' = points s /\ timers s' = timers s /\
       isGenerating s' = false /\ currentPointRef s' = localCurrent /\
       animationStep s' = None /\ highlightedVertices s' = []) /\
  fireN 100 (tickState st seed g 0) = Some (finishedState st seed g) /\
  Idle (finishedState st seed g) /\
  points (finishedState st seed g) = points st ++ orbit g seed 100 /\
  length (points (finishedState st seed g))
  = (length (points st) + 100)%nat /\
  setPointsCalls (finishedState st seed g) = (setPointsCalls st + 100)%nat /\
  currentPointRef (finishedState st seed g) = pointAt g seed 100 /\
  animationStep (finishedState st seed g) = None /\
  highlightedVertices (finishedState st seed g) = [].
Proof.
  intros seed g. destruct Hidle as [Hgen Ht].
  pose proof (findSeedPoint_unitDraws (currentPointRef st) st (rng st) Hg)
    as Hg'. fold g in Hg'.
  split; [apply animateGeneration_eq; assumption |].
  split.
  { intros j Hj.
    split; [apply (fireN_ticks st seed g j 0); [lia | assumption] |].
    cbn [tickState isGenerating points setPointsCalls timers].
    rewrite length_app, orbit_length. repeat split. }
  split.
  { intros j Hj. cbn [tickState points].
    rewrite <- app_assoc, <- orbit_snoc. reflexivity. }
  split.
  { intros count localCurrent s Hlt Hs.
    destruct (step_tick count localCurrent s Hlt (Hs _))
      as (target & _ & _ & Hstep).
    exists target. eexists. split; [exact Hstep |]. repeat split. }
  split.
  { intros count localCurrent s Hge.
    eexists. split; [apply step_finish; assumption |]. repeat split. }
  split; [apply fireN_run; assumption |].
  cbn [finishedState points setPointsCalls currentPointRef animationStep
       highlightedVertices].
  rewrite length_app, orbit_length. repeat split.
Qed.

Lemma animation_run_witness :
  exists st', 
    fireN 100
      (tickState mountedState
         (fst (findSeedPoint (currentPointRef mountedState) mountedState
                 (rng mountedState)))
         (snd (findSeedPoint (currentPointRef mountedState) mountedState
                 (rng mountedState))) 0)
    = Some st' /\ Idle st'.
Proof.
  pose proof (animation_run mountedState mountedState_Idle
                mountedState_unitDraws)
    as (_ & _ & _ & _ & _ & Hrun & Hidle & _).
  eexists. split; [exact Hrun | exact Hidle].
Defined.

(** ** Invariants of the component *)


Lemma Inv_initialState c g : unitDraws g -> Inv (initialState c g).
Proof.
  intros Hg. rewrite initialState_eq. constructor; fields.
  - apply unitDraws_advance; assumption.
  - lra.
  - discriminate.
  - left; reflexivity.
  - auto.
  - discriminate.
  - exists []. reflexivity.
  - lia.
Qed.

(** The invariant only reads the oracle, the viewport and the controller
    fields. *)
Lemma Inv_frame st st' :
  rng st' = rng st -> scale (viewport st') = scale (viewport st) ->
  animationTimeoutRef st' = animationTimeoutRef st ->
  nextTimerId st' = nextTimerId st -> timers st' = timers st ->
  isGenerating st' = isGenerating st ->
  animationStep st' = animationStep st ->
  highlightedVertices st' = highlightedVertices st ->
  Inv st -> Inv st'.
Proof.
  intros E1 E2 E3 E4 E5 E6 E7 E8 [H1 H2 H3 H4 H5 H6 H7 H8].
  constructor; rewrite ?E1, ?E2, ?E3, ?E4, ?E5, ?E6, ?E7, ?E8; assumption.
Qed.

Lemma Inv_setViewport v st :
  0 < scale v -> Inv st -> Inv (setViewport v st).
Proof.
  intros Hv [H1 H2 H3 H4 H5 H6 H7 H8]. constructor; fields; assumption.
Qed.

Lemma Inv_handleWheel cx cy d st : Inv st -> Inv (handleWheel cx cy d st).
Proof.
  intros HI. unfold handleWheel. destruct (canvas st) as [c |]; [| assumption].
  apply Inv_setViewport; [| assumption].
  apply zoomAt_scale_pos, (inv_scale st HI).
Qed.

Lemma Inv_handleMouseMove cx cy st : Inv st -> Inv (handleMouseMove cx cy st).
Proof.
  intros HI. unfold handleMouseMove.
  destruct (isDragging st); cbn [negb]; [| assumption].
  apply Inv_setViewport; [exact (inv_scale st HI) |].
  revert HI. apply Inv_frame; reflexivity.
Qed.

Lemma Inv_onResize l t w h st : Inv st -> Inv (onResize l t w h st).
Proof.
  intros HI. unfold onResize. destruct (canvas st) as [c |]; [| assumption].
  destruct (gtb w 0 && gtb h 0) eqn:E.
  - apply andb_true_iff in E. destruct E as [Hw Hh].
    apply gtb_true in Hw. apply gtb_true in Hh.
    unfold setupCanvas. cbn [points setCanvas viewport].
    destruct (length (points st) =? 0)%nat.
    + apply Inv_setViewport;
        [apply getInitialViewport_scale_pos; assumption |].
      revert HI. apply Inv_frame; reflexivity.
    + apply Inv_setViewport; [exact (inv_scale st HI) |].
      revert HI. apply Inv_frame; reflexivity.
  - revert HI. apply Inv_frame; reflexivity.
Qed.

Lemma Inv_generateInstantly st st' :
  Inv st -> generateInstantly st = Some st' -> Inv st'.
Proof.
  intros HI Hgen.
  rewrite (generateInstantly_eq st (inv_draws st HI)) in Hgen.
  injection Hgen as <-.
  destruct HI as [H1 H2 H3 H4 H5 H6 H7 H8]. constructor; fields; try assumption.
  apply unitDraws_advance, findSeedPoint_unitDraws; assumption.
Qed.

Lemma Inv_tickState st seed g j :
  Inv st -> unitDraws g -> highlightedVertices st = [] ->
  Inv (tickState st seed g j).
Proof.
  intros [H1 H2 H3 H4 H5 H6 H7 H8] Hg Hq.
  constructor; unfold tickState; fields.
  - apply (unitDraws_advance (S j)); assumption.
  - assumption.
  - intros id [= <-]. lia.
  - right. eexists. split; reflexivity.
  - discriminate.
  - discriminate.
  - rewrite Hq. eexists.
    apply (highlightsAfter_recent (map (targetAt g) (seq 0 (S j)))).
  - lia.
Qed.

Lemma Inv_animateGeneration st st' :
  Inv st -> isGenerating st = false -> animateGeneration st = Some st' ->
  Inv st'.
Proof.
  intros HI Hgen Hanim.
  destruct (inv_idle st HI Hgen) as (Ht & _ & Hq).
  rewrite (animateGeneration_eq st Ht (inv_draws st HI)) in Hanim.
  injection Hanim as <-.
  apply Inv_tickState; try assumption.
  apply findSeedPoint_unitDraws, (inv_draws st HI).
Qed.

(** The pending timeout is the only one that can fire. *)
Lemma fireTimer_inv id st st' :
  Inv st -> fireTimer id st = Some st' ->
  exists t, timers st = [t] /\ timerId t = id /\ isGenerating st = true /\
            step (timerCount t) (timerLocal t)
              (setTimers [] (nextTimerId st) st) = Some st'.
Proof.
  intros HI Hfire.
  destruct (inv_timers st HI) as [Ht | (t & Ht & Href)].
  - unfold fireTimer in Hfire. rewrite Ht in Hfire. discriminate.
  - unfold fireTimer, clearTimeout in Hfire. rewrite Ht in Hfire.
    cbn [find filter] in Hfire.
    destruct (Nat.eqb (timerId t) id) eqn:E; [| discriminate].
    apply Nat.eqb_eq in E. exists t.
    repeat split; try assumption.
    destruct (isGenerating st) eqn:Hgen; [reflexivity |].
    destruct (inv_idle st HI Hgen) as (Hnil & _).
    rewrite Hnil in Ht. discriminate.
Qed.

Lemma Inv_fireTimer id st st' :
  Inv st -> fireTimer id st = Some st' -> Inv st'.
Proof.
  intros HI Hfire.
  destruct (fireTimer_inv id st st' HI Hfire) as (t & Ht & Hid & Hgen & Hstep).
  destruct HI as [H1 H2 H3 H4 H5 H6 H7 H8].
  destruct (Nat.lt_ge_cases (timerCount t) 100) as [Hlt | Hge].
  - destruct (step_tick (timerCount t) (timerLocal t)
                (setTimers [] (nextTimerId st) st) Hlt (H1 _))
      as (target & _ & _ & Hs).
    rewrite Hs in Hstep. injection Hstep as <-.
    destruct H4 as [Hnil | (t' & Ht' & Href)]; [congruence |].
    specialize (H3 _ Href).
    constructor; fields.
    + apply (unitDraws_advance 1); assumption.
    + assumption.
    + intros id' [= <-]. lia.
    + right. eexists. split; reflexivity.
    + congruence.
    + discriminate.
    + destruct H7 as [ts Hts]. exists (ts ++ [target]).
      rewrite Hts. apply updateHighlights_recent.
    + lia.
  - rewrite step_finish in Hstep by assumption. injection Hstep as <-.
    constructor; fields; try assumption.
    + left; reflexivity.
    + auto.
    + discriminate.
    + exists []. reflexivity.
Qed.

Lemma cancel_timers st : Inv st -> timers (cancel st) = [].
Proof.
  intros HI. unfold cancel.
  destruct (inv_timers st HI) as [Ht | (t & Ht & Href)].
  - destruct (animationTimeoutRef st) as [id |]; [| assumption].
    destruct (Nat.eqb id 0); [assumption |].
    unfold clearTimeout. fields. rewrite Ht. reflexivity.
  - rewrite Href. pose proof (inv_handle st HI _ Href) as Hid.
    destruct (Nat.eqb_spec (timerId t) 0) as [E | _]; [lia |].
    unfold clearTimeout. fields. rewrite Ht. cbn [filter timerId].
    rewrite Nat.eqb_refl. reflexivity.
Qed.

(** [cancel] touches the queue of timeouts and the handle, nothing else. *)
Lemma cancel_frame st :
  canvas (cancel st) = canvas st /\ points (cancel st) = points st /\
  currentPointRef (cancel st) = currentPointRef st /\
  viewport (cancel st) = viewport st /\
  isGenerating (cancel st) = isGenerating st /\
  animationStep (cancel st) = animationStep st /\
  highlightedVertices (cancel st) = highlightedVertices st /\
  nextTimerId (cancel st) = nextTimerId st /\ rng (cancel st) = rng st /\
  setPointsCalls (cancel st) = setPointsCalls st.
Proof.
  unfold cancel. destruct (animationTimeoutRef st) as [id |];
    [destruct (Nat.eqb id 0) |]; repeat split.
Qed.

(** The state [reset] leaves, given what [cancel] left. *)
Lemma resetState_eq st :
  resetState st
  = mkAppState (canvas st) [] (fallbackPoint (rng st))
      (match canvas st with
       | Some c =>
           if gtb (rectWidth c) 0 && gtb (rectHeight c) 0
           then getInitialViewport (rectWidth c) (rectHeight c)
           else viewport st
       | None => viewport st
       end)
      (isDragging st) (dragStartRef st) (pointsPerClick st)
      (isAnimationMode st) false None [] (animationTimeoutRef st)
      (timers st) (nextTimerId st) (advance 2 (rng st))
      (S (setPointsCalls st)).
Proof.
  unfold resetState.
  destruct st as [cv ps cur vp dr ds ppc am ig an hl tr tm nt g spc].
  fields.
  destruct cv as [c |];
    [destruct (gtb (rectWidth c) 0 && gtb (rectHeight c) 0) |];
    fields; rewrite getInitialPoint_eq; reflexivity.
Qed.

Lemma Inv_reset st : Inv st -> Inv (reset st).
Proof.
  intros HI. pose proof (cancel_timers st HI) as Ht.
  destruct (cancel_frame st)
    as (Ec & _ & _ & Ev & _ & _ & _ & En & Er & _).
  pose proof (reset_scale_pos st (inv_scale st HI)) as Hsc.
  unfold reset in *. rewrite resetState_eq in *.
  cbn [viewport] in Hsc.
  constructor;
    cbn [rng viewport animationTimeoutRef nextTimerId timers isGenerating
         animationStep highlightedVertices].
  - rewrite Er. apply unitDraws_advance, (inv_draws st HI).
  - exact Hsc.
  - rewrite En. intros id Hid. apply (inv_handle st HI).
    revert Hid. unfold cancel.
    destruct (animationTimeoutRef st) as [id' |] eqn:Href;
      [| intros Hid; congruence].
    destruct (Nat.eqb id' 0); fields; intros Hid; congruence.
  - left; assumption.
  - auto.
  - discriminate.
  - exists []. reflexivity.
  - rewrite En. apply (inv_next st HI).
Qed.

Lemma Inv_render st : Inv st -> Inv (render st).
Proof.
  intros [H1 H2 H3 H4 H5 H6 H7 H8]. rewrite render_eq.
  constructor; fields; try assumption.
Qed.

Lemma Inv_handle e st st' : Inv st -> handle e st = Some st' -> Inv st'.
Proof.
  intros HI Hh. destruct e; cbn [handle] in Hh.
  - injection Hh as <-. apply Inv_handleWheel; assumption.
  - injection Hh as <-. revert HI. apply Inv_frame; reflexivity.
  - injection Hh as <-. revert HI. apply Inv_frame; reflexivity.
  - injection Hh as <-. revert HI. apply Inv_frame; reflexivity.
  - injection Hh as <-. apply Inv_handleMouseMove; assumption.
  - injection Hh as <-. apply Inv_onResize; assumption.
  - destruct (isGenerating st); [discriminate |].
    injection Hh as <-. revert HI. apply Inv_frame; reflexivity.
  - destruct (isAnimationMode st || isGenerating st); [discriminate |].
    injection Hh as <-. revert HI. apply Inv_frame; reflexivity.
  - destruct (isGenerating st) eqn:Hgen; [discriminate |].
    unfold handleGeneratePoints in Hh.
    destruct (isAnimationMode st).
    + apply (Inv_animateGeneration st); assumption.
    + apply (Inv_generateInstantly st); assumption.
  - injection Hh as <-. apply Inv_reset; assumption.
  - apply (Inv_fireTimer id st); assumption.
  - injection Hh as <-. apply Inv_render; assumption.
Qed.

Lemma reachable_Inv st : reachable st -> Inv st.
Proof.
  induction 1 as [c g Hg | e st st' _ IH Hh].
  - apply Inv_initialState; assumption.
  - apply (Inv_handle e st); assumption.
Qed.

(** ** Reset *)

Lemma eta_AppState st :
  mkAppState (canvas st) (points st) (currentPointRef st) (viewport st)
    (isDragging st) (dragStartRef st) (pointsPerClick st)
    (isAnimationMode st) (isGenerating st) (animationStep st)
    (highlightedVertices st) (animationTimeoutRef st) (timers st)
    (nextTimerId st) (rng st) (setPointsCalls st) = st.
Proof. destruct st; reflexivity. Qed.

Lemma cancel_Idle st :
  Inv st -> Idle st -> cancel st = setAnimationTimeoutRef None st.
Proof.
  intros HI [_ Ht]. unfold cancel.
  destruct (animationTimeoutRef st) as [id |] eqn:Href.
  - pose proof (inv_handle st HI _ Href) as Hid.
    destruct (Nat.eqb_spec id 0) as [E | _]; [lia |].
    unfold clearTimeout. rewrite Ht. cbn [filter].
    clear HI Href Hid. destruct st. cbn [timers] in Ht. subst.
    reflexivity.
  - clear HI. destruct st. cbn [animationTimeoutRef] in Href. subst.
    reflexivity.
Qed.

Lemma fireTimer_no_timers id st : timers st = [] -> fireTimer id st = None.
Proof. intros Ht. unfold fireTimer. rewrite Ht. reflexivity. Qed.

Lemma reset_timers st : Inv st -> timers (reset st) = [].
Proof.
  intros HI. unfold reset. rewrite resetState_eq. cbn [timers].
  apply cancel_timers; assumption.
Qed.

(** C9: in every state the component can be in, the first statement of
    [reset] clears the pending timeout and touches nothing but the queue of
    timeouts and the handle; the rest of [reset] then runs on that state.
    When [reset] returns the controller is idle (not generating, nothing
    pending), the point collection is empty and the snapshot and the
    highlight queue are cleared; no timeout can fire afterwards, so no tick
    appends to the point collection or changes the state.  On an idle
    state the cancelling statement changes nothing but the stale handle,
    and nothing at all when the handle is already null. *)
Theorem reset_cancels_pending (st : AppState) (Hr : reachable st) :
  timers (cancel st) = [] /\
  (points (cancel st) = points st /\
   currentPointRef (cancel st) = currentPointRef st /\
   viewport (cancel st) = viewport st /\
   isGenerating (cancel st) = isGenerating st /\
   animationStep (cancel st) = animationStep st /\
   highlightedVertices (cancel st) = highlightedVertices st) /\
  reset st = resetState (cancel st) /\
  Idle (reset st) /\
  points (reset st) = [] /\
  animationStep (reset st) = None /\
  highlightedVertices (reset st) = [] /\
  (forall id, handle (Timeout id) (reset st) = None) /\
  (forall id ids, run (Timeout id :: ids) (reset st) = None) /\
  (forall ids st',
      run (map Timeout ids) (reset st) = Some st' ->
      st' = reset st /\ length (points st') = 0%nat) /\
  (isGenerating st = true -> timers st <> []) /\
  (Idle st -> cancel st = setAnimationTimeoutRef None st) /\
  (Idle st -> animationTimeoutRef st = None -> cancel st = st).
Proof.
  pose proof (reachable_Inv st Hr) as HI.
  pose proof (reset_timers st HI) as Ht.
  assert (Hno : forall id, handle (Timeout id) (reset st) = None)
    by (intros id; apply fireTimer_no_timers; assumption).
  assert (Hshape : reset st = resetState (cancel st)) by reflexivity.
  destruct (cancel_frame st) as (_ & E1 & E2 & E3 & E4 & E5 & E6 & _).
  split; [apply cancel_timers; assumption |].
  split; [repeat split; assumption |].
  split; [exact Hshape |].
  split; [split; [rewrite Hshape, resetState_eq; reflexivity | exact Ht] |].
  split; [rewrite Hshape, resetState_eq; reflexivity |].
  split; [rewrite Hshape, resetState_eq; reflexivity |].
  split; [rewrite Hshape, resetState_eq; reflexivity |].
  split; [exact Hno |].
  split; [intros id ids; cbn [run]; rewrite Hno; reflexivity |].
  split.
  { intros [| id ids] st' Hrun; cbn [map run] in Hrun.
    - injection Hrun as <-. split; [reflexivity |].
      rewrite Hshape, resetState_eq. reflexivity.
    - rewrite Hno in Hrun. discriminate. }
  split; [apply (inv_running st HI) |].
  split; [apply cancel_Idle; assumption |].
  intros Hidle Href. rewrite (cancel_Idle st HI Hidle).
  clear Hr HI Ht Hno Hshape E1 E2 E3 E4 E5 E6 Hidle.
  destruct st. cbn [animationTimeoutRef] in Href. subst. reflexivity.
Qed.

Lemma reachable_animatingState : reachable animatingState.
Proof.
  assert (H0 : reachable mountedState)
    by (apply reachable_init, unitDraws_zeroRng).
  assert (H1 : reachable animationModeState).
  { apply (reachable_step ToggleMode mountedState); [assumption |].
    unfold animationModeState, mountedState. rewrite initialState_eq.
    reflexivity. }
  apply (reachable_step ClickGenerate animationModeState); [assumption |].
  assert (Hidle : Idle animationModeState)
    by (unfold animationModeState, mountedState; rewrite initialState_eq;
        split; reflexivity).
  destruct Hidle as [Hgen Ht].
  cbn [handle]. rewrite Hgen. unfold handleGeneratePoints.
  assert (Hmode : isAnimationMode animationModeState = true) by reflexivity.
  rewrite Hmode. apply animateGeneration_eq; [assumption |].
  apply mountedState_unitDraws.
Qed.

Lemma reset_cancels_pending_witness :
  isGenerating animatingState = true /\
  timers animatingState <> [] /\
  Idle (reset animatingState) /\
  (forall id, handle (Timeout id) (reset animatingState) = None).
Proof.
  pose proof (reset_cancels_pending animatingState reachable_animatingState)
    as (_ & _ & _ & Hidle & _ & _ & _ & Hno & _ & _ & Hrun & _).
  split; [reflexivity |].
  split; [apply Hrun; reflexivity |].
  split; [exact Hidle | exact Hno].
Defined.

(** ** The highlight queue in the component *)

(** C10: after the ticks of a run that chose [targets] (oldest first), from
    an empty queue, the highlight queue is the four most recent targets,
    newest first, with lives 4, 3, 2, 1: at most 4 entries, every life in
    1..4 (the life 5 of a new entry is decremented in the tick that adds
    it), so the vertex of tick [j] is in the queue after ticks
    [j .. j + 3] and gone after tick [j + 4].  Every tick of [step]
    updates the queue in this way, and in every state the component can be
    in the queue has this shape. *)
Theorem highlight_queue_shape (targets : list Point) :
  let q := highlightsAfter targets [] in
  q = recentHighlights targets /\
  (length q <= 4)%nat /\
  length q = Nat.min (length targets) 4 /\
  map vertex q = firstn 4 (rev targets) /\
  map life q = firstn (length targets) [4; 3; 2; 1]%Z /\
  Forall (fun h => (1 <= life h <= 4)%Z) q /\
  (forall t more,
      map vertex (highlightsAfter (targets ++ [t] ++ more) [])
      = firstn 4 (rev more ++ t :: rev targets)) /\
  (forall t more, (length more < 4)%nat ->
      nth_error (highlightsAfter (targets ++ [t] ++ more) []) (length more)
      = Some (mkHighlightedVertex t (4 - Z.of_nat (length more)))) /\
  (forall t more, (4 <= length more)%nat ->
      highlightsAfter (targets ++ [t] ++ more) []
      = highlightsAfter more []) /\
  (forall count localCurrent s,
      (count < 100)%nat -> unitDraws (rng s) ->
      exists target s',
        step count localCurrent s = Some s' /\
        highlightedVertices s'
        = updateHighlights target (highlightedVertices s)) /\
  (forall st, reachable st ->
      exists ts,
        highlightedVertices st = highlightsAfter ts [] /\
        (length (highlightedVertices st) <= 4)%nat).
Proof.
  intros q. unfold q. rewrite highlightsAfter_recent.
  split; [reflexivity |].
  split; [rewrite recentHighlights_length; lia |].
  split; [apply recentHighlights_length |].
  split; [apply recentHighlights_vertices |].
  split; [apply recentHighlights_lives |].
  split.
  { apply Forall_forall. intros h Hin.
    apply (in_map life) in Hin. rewrite recentHighlights_lives in Hin.
    assert (Hin' : In (life h) [4; 3; 2; 1]%Z).
    { rewrite <- (firstn_skipn (length targets) [4; 3; 2; 1]%Z).
      apply in_or_app. left. exact Hin. }
    simpl in Hin'. lia. }
  split.
  { intros t more. rewrite highlightsAfter_recent, recentHighlights_vertices.
    rewrite !rev_app_distr. simpl. rewrite <- app_assoc. reflexivity. }
  split.
  { intros t more Hlen. rewrite highlightsAfter_recent.
    unfold recentHighlights. rewrite !rev_app_distr. simpl rev.
    rewrite <- (length_rev more) in *. rewrite <- app_assoc. simpl app.
    destruct (rev more) as [| a [| b [| c [| d l]]]]; simpl in Hlen;
      try lia; destruct (rev targets) as [| u [| v [| w l']]]; reflexivity. }
  split.
  { intros t more Hlen. rewrite !highlightsAfter_recent.
    unfold recentHighlights. rewrite !rev_app_distr.
    rewrite <- (length_rev more) in Hlen.
    destruct (rev more) as [| a [| b [| c [| d l]]]]; simpl in Hlen;
      try lia. reflexivity. }
  split.
  { intros count localCurrent s Hlt Hs.
    destruct (step_tick count localCurrent s Hlt (Hs _))
      as (target & _ & _ & Hstep).
    exists target. eexists. split; [exact Hstep | reflexivity]. }
  intros st Hr.
  destruct (inv_highlights st (reachable_Inv st Hr)) as [ts Hts].
  exists ts. rewrite highlightsAfter_recent. split; [assumption |].
  rewrite Hts, recentHighlights_length. lia.
Qed.

(** * Part IV: further properties of the component *)

(** ** The points and the pending callback *)

(** In exact arithmetic the points that the component holds stay inside
    the triangle; with it comes the bound on the count that a pending
    callback passes to [step]. *)

Lemma mountedState_eq :
  mountedState
  = mkAppState (Some canvas800) [] (fallbackPoint zeroRng)
      (mkViewport 0.5 0.433 1) false (mkPoint 0 0) P100 false false None []
      None [] 1 (advance 2 zeroRng) 0.
Proof. unfold mountedState. apply initialState_eq. Qed.

Lemma inside_bbox p : inside p -> 0 <= x p <= 1 /\ 0 <= y p <= sqrt075.
Proof.
  unfold inside. rewrite inside_VERTICES. intros (Hy & Hr & Hl).
  pose proof sqrt075_pos as Hh.
  assert (Hx0 : 0 <= x p).
  { apply Rmult_le_reg_l with sqrt075; [assumption |]. lra. }
  assert (Hx1 : x p <= 1).
  { apply Rmult_le_reg_l with sqrt075; [assumption |]. lra. }
  repeat split; try assumption. lra.
Qed.

Lemma targetAt_isVertex g k : unitDraws g -> isVertex (targetAt g k).
Proof. intros Hg. apply (targetAt_vertex g k Hg). Qed.

Lemma pointAt_inside g seed k :
  unitDraws g -> inside seed -> inside (pointAt g seed k).
Proof.
  intros Hg Hs. induction k as [| k IH]; [exact Hs |].
  cbn [pointAt]. apply midpoint_inside; [| exact IH].
  apply targetAt_isVertex; assumption.
Qed.

Lemma pointAt_generated g seed k :
  unitDraws g -> inside seed -> generated (pointAt g seed (S k)).
Proof.
  intros Hg Hs. exists (pointAt g seed k), (targetAt g k).
  split; [apply pointAt_inside; assumption |].
  split; [apply targetAt_isVertex; assumption | reflexivity].
Qed.

Lemma orbit_generated g seed n :
  unitDraws g -> inside seed -> Forall generated (orbit g seed n).
Proof.
  intros Hg Hs. unfold orbit, orbitFrom. apply Forall_map, Forall_forall.
  intros k _. apply pointAt_generated; assumption.
Qed.

(** The seed that [findSeedPoint] returns is inside whenever the current
    point is. *)
Lemma findSeedPoint_inside current st g :
  unitDraws g -> inside current ->
  inside (fst (findSeedPoint current st g)).
Proof.
  intros Hg Hin. destruct (canvas st) as [c |] eqn:Hc.
  - destruct (needsSeed current c st) eqn:Hneed.
    + destruct (findSeedPoint_triggered current st c g Hc Hneed)
        as [(i & _ & _ & Hok & Hres) | [_ Hres]]; rewrite Hres; cbn [fst].
      * exact Hok.
      * apply fallbackPoint_inside, unitDraws_advance; assumption.
    + rewrite (findSeedPoint_kept current st c g Hc Hneed). exact Hin.
  - rewrite (findSeedPoint_unmounted current st g Hc). cbn [fst].
    apply fallbackPoint_inside; assumption.
Qed.

Lemma Contained_frame st st' :
  currentPointRef st' = currentPointRef st -> points st' = points st ->
  timers st' = timers st -> Contained st -> Contained st'.
Proof.
  intros E1 E2 E3 [H1 H2 H3]. constructor; rewrite ?E1, ?E2, ?E3; assumption.
Qed.

Lemma Contained_initialState c g : unitDraws g -> Contained (initialState c g).
Proof.
  intros Hg. rewrite initialState_eq. constructor; fields.
  - apply fallbackPoint_inside; assumption.
  - constructor.
  - constructor.
Qed.

Lemma Contained_handleWheel cx cy d st :
  Contained st -> Contained (handleWheel cx cy d st).
Proof.
  unfold handleWheel. destruct (canvas st); [| auto].
  apply Contained_frame; reflexivity.
Qed.

Lemma Contained_handleMouseMove cx cy st :
  Contained st -> Contained (handleMouseMove cx cy st).
Proof.
  unfold handleMouseMove. destruct (isDragging st); cbn [negb]; [| auto].
  apply Contained_frame; reflexivity.
Qed.

Lemma Contained_onResize l t w h st :
  Contained st -> Contained (onResize l t w h st).
Proof.
  unfold onResize. destruct (canvas st) as [c |]; [| auto].
  destruct (gtb w 0 && gtb h 0).
  - unfold setupCanvas. cbn [points setCanvas].
    destruct (length (points st) =? 0)%nat;
      apply Contained_frame; reflexivity.
  - apply Contained_frame; reflexivity.
Qed.

Lemma Contained_generateInstantly st st' :
  Inv st -> Contained st -> generateInstantly st = Some st' -> Contained st'.
Proof.
  intros HI [H1 H2 H3] Hgen.
  pose proof (inv_draws st HI) as Hg.
  rewrite (generateInstantly_eq st Hg) in Hgen. injection Hgen as <-.
  pose proof (findSeedPoint_unitDraws (currentPointRef st) st (rng st) Hg)
    as Hg'.
  pose proof (findSeedPoint_inside (currentPointRef st) st (rng st) Hg H1)
    as Hs.
  constructor; fields.
  - apply pointAt_inside; assumption.
  - apply Forall_app. split; [assumption |].
    apply orbit_generated; assumption.
  - assumption.
Qed.

Lemma Contained_animateGeneration st st' :
  Inv st -> Contained st -> isGenerating st = false ->
  animateGeneration st = Some st' -> Contained st'.
Proof.
  intros HI [H1 H2 H3] Hgen Hanim.
  pose proof (inv_draws st HI) as Hg.
  destruct (inv_idle st HI Hgen) as (Ht & _).
  rewrite (animateGeneration_eq st Ht Hg) in Hanim. injection Hanim as <-.
  pose proof (findSeedPoint_unitDraws (currentPointRef st) st (rng st) Hg)
    as Hg'.
  pose proof (findSeedPoint_inside (currentPointRef st) st (rng st) Hg H1)
    as Hs.
  constructor; unfold tickState; fields.
  - assumption.
  - apply Forall_app. split; [assumption |].
    apply orbit_generated; assumption.
  - constructor; [| constructor]. cbn [timerLocal timerCount].
    split; [apply pointAt_inside; assumption | lia].
Qed.

Lemma Contained_fireTimer id st st' :
  Inv st -> Contained st -> fireTimer id st = Some st' -> Contained st'.
Proof.
  intros HI [H1 H2 H3] Hfire.
  destruct (fireTimer_inv id st st' HI Hfire) as (t & Ht & _ & _ & Hstep).
  rewrite Ht in H3. apply Forall_inv in H3. destruct H3 as [Hloc Hcount].
  destruct (Nat.lt_ge_cases (timerCount t) 100) as [Hlt | Hge].
  - destruct (step_tick (timerCount t) (timerLocal t)
                (setTimers [] (nextTimerId st) st) Hlt
                (inv_draws st HI _))
      as (target & _ & Hv & Hs).
    rewrite Hs in Hstep. injection Hstep as <-.
    constructor; fields.
    + assumption.
    + apply Forall_app. split; [assumption |].
      constructor; [| constructor].
      exists (timerLocal t), target. repeat split; assumption.
    + cbn [app]. constructor; [| constructor].
      cbn [timerLocal timerCount].
      split; [apply midpoint_inside; assumption | lia].
  - rewrite step_finish in Hstep by assumption. injection Hstep as <-.
    constructor; fields; [assumption | assumption | constructor].
Qed.

Lemma Contained_reset st : Inv st -> Contained st -> Contained (reset st).
Proof.
  intros HI [H1 H2 H3]. unfold reset. rewrite resetState_eq.
  destruct (cancel_frame st) as (_ & _ & _ & _ & _ & _ & _ & _ & Er & _).
  constructor; cbn [currentPointRef points timers].
  - rewrite Er. apply fallbackPoint_inside, (inv_draws st HI).
  - constructor.
  - rewrite (cancel_timers st HI). constructor.
Qed.

Lemma Contained_handle e st st' :
  Inv st -> Contained st -> handle e st = Some st' -> Contained st'.
Proof.
  intros HI HC Hh. destruct e; cbn [handle] in Hh.
  - injection Hh as <-. apply Contained_handleWheel; assumption.
  - injection Hh as <-. revert HC. apply Contained_frame; reflexivity.
  - injection Hh as <-. revert HC. apply Contained_frame; reflexivity.
  - injection Hh as <-. revert HC. apply Contained_frame; reflexivity.
  - injection Hh as <-. apply Contained_handleMouseMove; assumption.
  - injection Hh as <-. apply Contained_onResize; assumption.
  - destruct (isGenerating st); [discriminate |].
    injection Hh as <-. revert HC. apply Contained_frame; reflexivity.
  - destruct (isAnimationMode st || isGenerating st); [discriminate |].
    injection Hh as <-. revert HC. apply Contained_frame; reflexivity.
  - destruct (isGenerating st) eqn:Hgen; [discriminate |].
    unfold handleGeneratePoints in Hh.
    destruct (isAnimationMode st).
    + apply (Contained_animateGeneration st); assumption.
    + apply (Contained_generateInstantly st); assumption.
  - injection Hh as <-. apply Contained_reset; assumption.
  - apply (Contained_fireTimer id st); assumption.
  - injection Hh as <-. rewrite render_eq. revert HC.
    apply Contained_frame; reflexivity.
Qed.

Lemma reachable_Contained st : reachable st -> Contained st.
Proof.
  induction 1 as [c g Hg | e st st' Hr IH Hh].
  - apply Contained_initialState; assumption.
  - apply (Contained_handle e st); [apply reachable_Inv | |]; assumption.
Qed.

(** ** The game forgets its seed *)

Lemma pointAt_forgets_seed (g : Rng) (s1 s2 : Point) (k : nat) :
  x (pointAt g s1 k) - x (pointAt g s2 k) = (x s1 - x s2) / 2 ^ k /\
  y (pointAt g s1 k) - y (pointAt g s2 k) = (y s1 - y s2) / 2 ^ k.
Proof.
  induction k as [| k [IHx IHy]].
  - cbn [pointAt pow]. split; field.
  - cbn [pointAt midpoint x y pow].
    assert (Hk : 2 ^ k <> 0) by (apply pow_nonzero; lra).
    split.
    + replace ((x (pointAt g s1 k) + x (targetAt g k)) / 2
               - (x (pointAt g s2 k) + x (targetAt g k)) / 2)
        with ((x (pointAt g s1 k) - x (pointAt g s2 k)) / 2) by field.
      rewrite IHx. field. assumption.
    + replace ((y (pointAt g s1 k) + y (targetAt g k)) / 2
               - (y (pointAt g s2 k) + y (targetAt g k)) / 2)
        with ((y (pointAt g s1 k) - y (pointAt g s2 k)) / 2) by field.
      rewrite IHy. field. assumption.
Qed.

Lemma generateLoop_from g seed n :
  unitDraws g ->
  generateLoop n seed [] g
  = (Some (pointAt g seed n, orbit g seed n), advance n g).
Proof.
  intros Hg.
  pose proof (generateLoop_orbit g seed n 0 [] Hg) as H.
  rewrite advance_0 in H. exact H.
Qed.

(** X3: the chaos game forgets its seed: run from two seeds with the same
    draws, the loop of [generateInstantly] produces points that differ, in
    each coordinate, by the difference of the seeds divided by [2 ^ k] at
    the [k]-th point, and final points that differ by it divided by
    [2 ^ n]. *)
Theorem generateLoop_forgets_seed (g : Rng) (s1 s2 : Point) (n : nat)
  (Hg : unitDraws g) :
  exists c1 l1 c2 l2 g',
    generateLoop n s1 [] g = (Some (c1, l1), g') /\
    generateLoop n s2 [] g = (Some (c2, l2), g') /\
    x c1 - x c2 = (x s1 - x s2) / 2 ^ n /\
    y c1 - y c2 = (y s1 - y s2) / 2 ^ n /\
    (forall k p1 p2,
        nth_error l1 k = Some p1 -> nth_error l2 k = Some p2 ->
        x p1 - x p2 = (x s1 - x s2) / 2 ^ S k /\
        y p1 - y p2 = (y s1 - y s2) / 2 ^ S k).
Proof.
  exists (pointAt g s1 n), (orbit g s1 n), (pointAt g s2 n), (orbit g s2 n),
    (advance n g).
  split; [apply generateLoop_from; assumption |].
  split; [apply generateLoop_from; assumption |].
  destruct (pointAt_forgets_seed g s1 s2 n) as [Hx Hy].
  split; [exact Hx |]. split; [exact Hy |].
  intros k p1 p2 H1 H2.
  assert (Hk : (k < n)%nat).
  { rewrite <- (orbit_length g s1 n). apply nth_error_Some. congruence. }
  rewrite orbit_nth in H1, H2 by assumption.
  injection H1 as <-. injection H2 as <-.
  exact (pointAt_forgets_seed g s1 s2 (S k)).
Qed.

Lemma generateLoop_forgets_seed_witness :
  exists c1 l1 c2 l2 g',
    generateLoop 3 V0 [] zeroRng = (Some (c1, l1), g') /\
    generateLoop 3 V1 [] zeroRng = (Some (c2, l2), g') /\
    x c1 - x c2 = (x V0 - x V1) / 2 ^ 3.
Proof.
  destruct (generateLoop_forgets_seed zeroRng V0 V1 3 unitDraws_zeroRng)
    as (c1 & l1 & c2 & l2 & g' & H1 & H2 & Hx & _).
  exists c1, l1, c2, l2, g'. repeat split; assumption.
Defined.

(** ** Runs end, one at a time *)

Lemma firePending_single st t :
  timers st = [t] ->
  firePending st
  = step (timerCount t) (timerLocal t) (setTimers [] (nextTimerId st) st).
Proof.
  intros Ht. unfold firePending. rewrite Ht. cbn [handle].
  destruct t as [id delay count local]. cbn [timerId timerCount timerLocal].
  apply (fireTimer_single id delay count local). exact Ht.
Qed.

Lemma firePending_handle st t :
  timers st = [t] -> firePending st = handle (Timeout (timerId t)) st.
Proof. intros Ht. unfold firePending. rewrite Ht. reflexivity. Qed.

(** From a state with one pending callback, the remaining timeouts bring
    the controller to idle. *)
Lemma run_finishes k : forall st t,
  Inv st -> timers st = [t] -> (timerCount t + k = 100)%nat ->
  exists st',
    fireN (S k) st = Some st' /\ Idle st' /\
    length (points st') = (length (points st) + k)%nat /\
    animationStep st' = None /\ highlightedVertices st' = [].
Proof.
  induction k as [| k IH]; intros st t HI Ht Hcount.
  - cbn [fireN]. rewrite (firePending_single st t Ht).
    rewrite step_finish by lia.
    eexists. split; [reflexivity |]. unfold Idle. fields.
    rewrite Nat.add_0_r. repeat split.
  - assert (Hlt : (timerCount t < 100)%nat) by lia.
    destruct (step_tick (timerCount t) (timerLocal t)
                (setTimers [] (nextTimerId st) st) Hlt
                (inv_draws st HI _))
      as (target & _ & _ & Hs).
    match type of Hs with _ = Some ?s => set (st1 := s) in * end.
    assert (Hf : firePending st = Some st1)
      by (rewrite (firePending_single st t Ht); exact Hs).
    assert (HI1 : Inv st1).
    { apply (Inv_handle (Timeout (timerId t)) st); [assumption |].
      rewrite <- (firePending_handle st t Ht). exact Hf. }
    destruct (IH st1 _ HI1 eq_refl) as (st' & Hrun & Hidle & Hlen & Hrest).
    { cbn [timerCount]. lia. }
    exists st'.
    change (fireN (S (S k)) st)
      with (match firePending st with
            | Some s' => fireN (S k) s'
            | None => None
            end).
    rewrite Hf.
    split; [exact Hrun |]. split; [exact Hidle |].
    split; [| exact Hrest].
    rewrite Hlen. unfold st1. fields. rewrite length_app. cbn [length]. lia.
Qed.

(** X6: a run always ends: in every state the component can be in while
    generating, exactly one callback is pending, its count [c] is between
    1 and 100, and letting [101 - c] timeouts fire brings the controller
    back to idle with exactly [100 - c] more points and with the snapshot
    and the highlight queue cleared. *)
Theorem running_animation_finishes (st : AppState) (Hr : reachable st)
  (Hgen : isGenerating st = true) :
  exists t,
    timers st = [t] /\ (1 <= timerCount t <= 100)%nat /\
    exists st',
      fireN (101 - timerCount t) st = Some st' /\ Idle st' /\
      length (points st')
      = (length (points st) + (100 - timerCount t))%nat /\
      animationStep st' = None /\ highlightedVertices st' = [].
Proof.
  pose proof (reachable_Inv st Hr) as HI.
  pose proof (reachable_Contained st Hr) as [_ _ HT].
  destruct (inv_timers st HI) as [Hnil | (t & Ht & _)].
  - exfalso. apply (inv_running st HI Hgen). exact Hnil.
  - exists t. rewrite Ht in HT. apply Forall_inv in HT.
    destruct HT as [_ Hc].
    split; [exact Ht |]. split; [exact Hc |].
    replace (101 - timerCount t)%nat with (S (100 - timerCount t)) by lia.
    apply (run_finishes (100 - timerCount t) st t HI Ht). lia.
Qed.

Lemma running_animation_finishes_witness :
  exists t,
    timers animatingState = [t] /\
    exists st', fireN (101 - timerCount t) animatingState = Some st'
                /\ Idle st'.
Proof.
  destruct (running_animation_finishes animatingState
              reachable_animatingState eq_refl)
    as (t & Ht & _ & st' & Hrun & Hidle & _).
  exists t. split; [exact Ht |]. exists st'. split; assumption.
Defined.

(** X7: in every state the component can be in at most one callback is
    pending, and [animationTimeoutRef] holds its handle; a callback is
    pending exactly while the component is generating; outside a run the
    snapshot and the highlight queue are empty. *)
Theorem one_run_at_a_time (st : AppState) (Hr : reachable st) :
  (length (timers st) <= 1)%nat /\
  (forall t, In t (timers st) ->
     animationTimeoutRef st = Some (timerId t) /\
     (1 <= timerId t < nextTimerId st)%nat) /\
  (isGenerating st = true <-> timers st <> []) /\
  (isGenerating st = false ->
   animationStep st = None /\ highlightedVertices st = []).
Proof.
  pose proof (reachable_Inv st Hr) as HI.
  split; [| split; [| split]].
  - destruct (inv_timers st HI) as [-> | (t & -> & _)]; cbn [length]; lia.
  - intros t Hin.
    destruct (inv_timers st HI) as [Hnil | (t' & Ht & Href)].
    + rewrite Hnil in Hin. destruct Hin.
    + rewrite Ht in Hin. destruct Hin as [<- | []].
      split; [exact Href | apply (inv_handle st HI _ Href)].
  - split; [apply (inv_running st HI) |].
    intros Hne. destruct (isGenerating st) eqn:Hgen; [reflexivity |].
    destruct (inv_idle st HI Hgen) as (Hnil & _). contradiction.
  - intros Hgen. destruct (inv_idle st HI Hgen) as (_ & Ha & Hq).
    split; assumption.
Qed.

Lemma one_run_at_a_time_witness :
  (length (timers animatingState) <= 1)%nat /\
  (isGenerating animatingState = true <-> timers animatingState <> []).
Proof.
  pose proof (one_run_at_a_time animatingState reachable_animatingState)
    as (H1 & _ & H3 & _).
  split; assumption.
Defined.

(** ** The point collection only grows *)

Lemma step_points count localCurrent st st' :
  step count localCurrent st = Some st' ->
  exists new, points st' = points st ++ new /\ (length new <= 1)%nat.
Proof.
  unfold step. destruct (100 <=? count)%nat.
  - intros [= <-]. exists []. fields. rewrite app_nil_r.
    split; [auto | cbn; lia].
  - destruct (chaosStep localCurrent (rng st)) as [[[target next] |] g];
      [| discriminate].
    intros [= <-]. exists [next]. unfold setTimeout. fields.
    split; [reflexivity | cbn; lia].
Qed.

Lemma generateInstantly_points st st' :
  generateInstantly st = Some st' ->
  exists new, points st' = points st ++ new.
Proof.
  unfold generateInstantly.
  destruct (findSeedPoint _ st (rng st)) as [current g].
  destruct (generateLoop _ current [] g) as [[[cur new] |] g'];
    [| discriminate].
  intros [= <-]. exists new. reflexivity.
Qed.

Lemma animateGeneration_points st st' :
  animateGeneration st = Some st' ->
  exists new, points st' = points st ++ new.
Proof.
  unfold animateGeneration.
  destruct (findSeedPoint _ _ _) as [seed g].
  intros Hs. apply step_points in Hs. destruct Hs as (new & Hp & _).
  exists new. exact Hp.
Qed.

Lemma fireTimer_points id st st' :
  fireTimer id st = Some st' ->
  exists new, points st' = points st ++ new.
Proof.
  unfold fireTimer. destruct (find _ (timers st)) as [t |]; [| discriminate].
  intros Hs. apply step_points in Hs. destruct Hs as (new & Hp & _).
  exists new. exact Hp.
Qed.

(** X8: the point collection is append-only: [reset] empties it, and every
    other event that the component handles keeps the points it had, in
    order, as a prefix of the collection; pointer, wheel and resize
    events and the two controls leave it unchanged. *)
Theorem points_append_only (e : Event) (st st' : AppState)
  (Hh : handle e st = Some st') :
  (e = Reset -> points st' = []) /\
  (e <> Reset -> exists new, points st' = points st ++ new) /\
  ((forall id, e <> Timeout id) -> e <> ClickGenerate -> e <> Reset ->
   points st' = points st).
Proof.
  split; [| split].
  - intros ->. cbn [handle] in Hh. injection Hh as <-.
    unfold reset. rewrite resetState_eq. reflexivity.
  - intros Hne. destruct e; cbn [handle] in Hh;
      try (injection Hh as <-; exists []; rewrite app_nil_r).
    + unfold handleWheel. destruct (canvas st); reflexivity.
    + reflexivity.
    + reflexivity.
    + reflexivity.
    + unfold handleMouseMove. destruct (isDragging st); reflexivity.
    + unfold onResize. destruct (canvas st) as [c |]; [| reflexivity].
      destruct (gtb w 0 && gtb h 0); [| reflexivity].
      unfold setupCanvas. cbn [points setCanvas].
      destruct (length (points st) =? 0)%nat; reflexivity.
    + destruct (isGenerating st); [discriminate |].
      injection Hh as <-. exists []. rewrite app_nil_r. reflexivity.
    + destruct (isAnimationMode st || isGenerating st); [discriminate |].
      injection Hh as <-. exists []. rewrite app_nil_r. reflexivity.
    + destruct (isGenerating st); [discriminate |].
      unfold handleGeneratePoints in Hh. destruct (isAnimationMode st).
      * apply animateGeneration_points; assumption.
      * apply generateInstantly_points; assumption.
    + contradiction.
    + apply (fireTimer_points id); assumption.
    + rewrite render_eq. reflexivity.
  - intros Ht Hg Hr. destruct e; cbn [handle] in Hh;
      try (injection Hh as <-).
    + unfold handleWheel. destruct (canvas st); reflexivity.
    + reflexivity.
    + reflexivity.
    + reflexivity.
    + unfold handleMouseMove. destruct (isDragging st); reflexivity.
    + unfold onResize. destruct (canvas st) as [c |]; [| reflexivity].
      destruct (gtb w 0 && gtb h 0); [| reflexivity].
      unfold setupCanvas. cbn [points setCanvas].
      destruct (length (points st) =? 0)%nat; reflexivity.
    + destruct (isGenerating st); [discriminate |].
      injection Hh as <-. reflexivity.
    + destruct (isAnimationMode st || isGenerating st); [discriminate |].
      injection Hh as <-. reflexivity.
    + contradiction.
    + contradiction.
    + exfalso. apply (Ht id). reflexivity.
    + rewrite render_eq. reflexivity.
Qed.

Lemma points_append_only_witness :
  exists new,
    points (handleWheel 400 300 120 mountedState)
    = points mountedState ++ new.
Proof.
  assert (Hh : handle (Wheel 400 300 120) mountedState
               = Some (handleWheel 400 300 120 mountedState))
    by reflexivity.
  destruct (points_append_only _ _ _ Hh) as (_ & Happ & _).
  apply Happ. discriminate.
Defined.

(** ** World and screen *)

Lemma viewMatrix_eq c v :
  viewMatrix c v
  = mkMatrix (scale v) 0 0 (- scale v)
      (width c / 2 - scale v * vx v) (height c / 2 + scale v * vy v).
Proof.
  unfold viewMatrix, ctx_translate, ctx_scale, identityMatrix.
  cbn [ma mb mc md me mf]. f_equal; ring.
Qed.

Lemma toScreen_eq c v p :
  toScreen c v p
  = mkPoint (width c / 2 + scale v * (x p - vx v))
            (height c / 2 - scale v * (y p - vy v)).
Proof.
  unfold toScreen, transformPoint. rewrite viewMatrix_eq.
  cbn [ma mb mc md me mf]. f_equal; ring.
Qed.

(** X9: the matrix that the drawing effect builds with translate, scale,
    translate paints the world point (x, y) at
    (width / 2 + scale (x - vx), height / 2 - scale (y - vy)), and for a
    scale that is not zero it is the inverse of the screen-to-world map
    that [handleWheel] applies to the cursor: each undoes the other. *)
Theorem screen_world_roundtrip (c : Canvas) (v : Viewport)
  (Hs : scale v <> 0) :
  (forall p,
      toScreen c v p
      = mkPoint (width c / 2 + scale v * (x p - vx v))
                (height c / 2 - scale v * (y p - vy v))) /\
  (forall p,
      toWorld (x (toScreen c v p)) (y (toScreen c v p)) c v = p) /\
  (forall mouseX mouseY,
      toScreen c v (toWorld mouseX mouseY c v) = mkPoint mouseX mouseY).
Proof.
  split; [intros p; apply toScreen_eq |]. split.
  - intros [px py]. rewrite toScreen_eq. unfold toWorld. cbn [x y].
    f_equal; field; assumption.
  - intros mx my. rewrite toScreen_eq. unfold toWorld. cbn [x y].
    f_equal; field; assumption.
Qed.

Lemma screen_world_roundtrip_witness :
  toScreen canvas800 (mkViewport 0.5 0.433 1)
    (toWorld 100 200 canvas800 (mkViewport 0.5 0.433 1))
  = mkPoint 100 200.
Proof.
  assert (Hs : scale (mkViewport 0.5 0.433 1) <> 0) by (simpl; lra).
  apply (screen_world_roundtrip canvas800 (mkViewport 0.5 0.433 1) Hs).
Defined.

(** X10: a zoom is a scaling of the screen about the cursor: after
    [zoomAt] at the cursor, every world point is painted at the cursor
    plus [0.998 ^ deltaY] times its former offset from the cursor. *)
Theorem zoom_scales_screen_about_cursor (mouseX mouseY deltaY : R)
  (c : Canvas) (v : Viewport) (Hs : 0 < scale v) (p : Point) :
  let v' := zoomAt mouseX mouseY deltaY c v in
  x (toScreen c v' p) - mouseX
  = Math_pow 0.998 deltaY * (x (toScreen c v p) - mouseX) /\
  y (toScreen c v' p) - mouseY
  = Math_pow 0.998 deltaY * (y (toScreen c v p) - mouseY).
Proof.
  intros v'. unfold v'. rewrite !toScreen_eq. unfold zoomAt.
  cbn [x y vx vy scale].
  pose proof (Math_pow_pos 0.998 deltaY) as Hf.
  set (f := Math_pow 0.998 deltaY) in *.
  split; field; lra.
Qed.

Lemma zoom_scales_screen_about_cursor_witness :
  x (toScreen canvas800
       (zoomAt 100 200 120 canvas800 (mkViewport 0.5 0.433 1)) V1) - 100
  = Math_pow 0.998 120
    * (x (toScreen canvas800 (mkViewport 0.5 0.433 1) V1) - 100).
Proof.
  assert (Hs : 0 < scale (mkViewport 0.5 0.433 1)) by (simpl; lra).
  apply (zoom_scales_screen_about_cursor 100 200 120 canvas800
           (mkViewport 0.5 0.433 1) Hs V1).
Defined.

Lemma Math_pow_plus b d1 d2 :
  Math_pow b (d1 + d2) = Math_pow b d1 * Math_pow b d2.
Proof. unfold Math_pow. apply Rpower_plus. Qed.

Lemma Math_pow_0 b : Math_pow b 0 = 1.
Proof. unfold Math_pow, Rpower. rewrite Rmult_0_l. apply exp_0. Qed.

(** X11: wheel events at one cursor position compose multiplicatively
    when the component renders between them: in exact arithmetic, zooming
    by [a] and then by [b] is zooming by [a + b], and a wheel delta of 0
    changes nothing; so the viewport after two wheel events, the second
    taken by the handler of the render that followed the first, is the
    viewport after one event with the sum of the deltas.  When both events
    are taken by the handler of one render, the handler reads the same
    viewport twice and the first event is lost: the viewport is the one
    after the second event alone. *)
Theorem zoom_composes (clientX clientY : R) (st : AppState) (c : Canvas)
  (Hc : canvas st = Some c) (Hs : 0 < scale (viewport st)) :
  let mouseX := clientX - rectLeft c in
  let mouseY := clientY - rectTop c in
  let v := viewport st in
  (forall a b,
      zoomAt mouseX mouseY b c (zoomAt mouseX mouseY a c v)
      = zoomAt mouseX mouseY (a + b) c v) /\
  zoomAt mouseX mouseY 0 c v = v /\
  (forall a b,
      let st1 := handleWheelFrom v clientX clientY a st in
      viewport st1 = zoomAt mouseX mouseY a c v /\
      viewport (handleWheelFrom (viewport st1) clientX clientY b st1)
      = zoomAt mouseX mouseY (a + b) c v /\
      handleWheelFrom (viewport st1) clientX clientY b st1
      = handleWheel clientX clientY b (handleWheel clientX clientY a st) /\
      viewport (handleWheelFrom v clientX clientY b st1)
      = zoomAt mouseX mouseY b c v /\
      handleWheelFrom v clientX clientY b st1
      = handleWheelFrom v clientX clientY b st).
Proof.
  intros mouseX mouseY v.
  assert (Hcomp : forall a b,
             zoomAt mouseX mouseY b c (zoomAt mouseX mouseY a c v)
             = zoomAt mouseX mouseY (a + b) c v).
  { intros a b. unfold v in *. destruct (viewport st) as [vx0 vy0 s].
    cbn [scale] in Hs.
    unfold zoomAt. cbn [vx vy scale]. rewrite Math_pow_plus.
    pose proof (Math_pow_pos 0.998 a) as Ha.
    pose proof (Math_pow_pos 0.998 b) as Hb.
    set (fa := Math_pow 0.998 a) in *. set (fb := Math_pow 0.998 b) in *.
    f_equal; field; lra. }
  split; [exact Hcomp |]. split.
  - unfold v in *. destruct (viewport st) as [vx0 vy0 s].
    cbn [scale] in Hs.
    unfold zoomAt. cbn [vx vy scale]. rewrite Math_pow_0.
    f_equal; field; lra.
  - intros a b st1.
    assert (E1 : st1 = setViewport (zoomAt mouseX mouseY a c v) st).
    { unfold st1, handleWheelFrom. rewrite Hc. reflexivity. }
    assert (Hc1 : canvas st1 = Some c) by (rewrite E1; exact Hc).
    assert (Hv1 : viewport st1 = zoomAt mouseX mouseY a c v)
      by (rewrite E1; reflexivity).
    split; [exact Hv1 |]. split; [| split; [| split]].
    + unfold handleWheelFrom at 1. rewrite Hc1. cbn [viewport setViewport].
      rewrite Hv1. apply Hcomp.
    + rewrite <- handleWheel_eq. reflexivity.
    + unfold handleWheelFrom at 1. rewrite Hc1. reflexivity.
    + apply handleWheelFrom_overwrites.
Qed.

Lemma zoom_composes_witness :
  viewport (handleWheel 100 200 40 (handleWheel 100 200 80 mountedState))
  = zoomAt 100 200 (80 + 40) canvas800 (mkViewport 0.5 0.433 1).
Proof.
  assert (Hc : canvas mountedState = Some canvas800)
    by (rewrite mountedState_eq; reflexivity).
  assert (Hs : 0 < scale (viewport mountedState))
    by (rewrite mountedState_eq; cbn [viewport scale]; lra).
  destruct (zoom_composes 100 200 mountedState canvas800 Hc Hs)
    as (_ & _ & Hev).
  destruct (Hev 80 40) as (_ & Hv & He & _).
  rewrite <- He, Hv. rewrite mountedState_eq.
  cbn [viewport canvas800 rectLeft rectTop].
  replace (100 - 0) with 100 by lra. replace (200 - 0) with 200 by lra.
  reflexivity.
Defined.

(** ** Dragging *)

Lemma handleMouseMove_dragging cx cy st :
  isDragging st = true ->
  handleMouseMove cx cy st
  = setViewport
      (pan (cx - x (dragStartRef st)) (cy - y (dragStartRef st))
         (viewport st))
      (setDragStartRef (mkPoint cx cy) st).
Proof. intros Hd. unfold handleMouseMove. rewrite Hd. reflexivity. Qed.

(** X12: while dragging, the picture follows the pointer: after a mouse
    move every world point is painted displaced by exactly the pointer's
    displacement, and the world point that was under the pointer when the
    drag position was last recorded is under the pointer again. *)
Theorem drag_moves_picture_with_pointer (clientX clientY : R)
  (st : AppState) (c : Canvas) (Hd : isDragging st = true)
  (Hs : scale (viewport st) <> 0) :
  let st' := handleMouseMove clientX clientY st in
  let dx := clientX - x (dragStartRef st) in
  let dy := clientY - y (dragStartRef st) in
  (forall p,
      x (toScreen c (viewport st') p) = x (toScreen c (viewport st) p) + dx /\
      y (toScreen c (viewport st') p) = y (toScreen c (viewport st) p) + dy) /\
  toWorld (clientX - rectLeft c) (clientY - rectTop c) c (viewport st')
  = toWorld (x (dragStartRef st) - rectLeft c)
      (y (dragStartRef st) - rectTop c) c (viewport st) /\
  dragStartRef st' = mkPoint clientX clientY /\
  scale (viewport st') = scale (viewport st).
Proof.
  intros st' dx dy. unfold st'.
  rewrite (handleMouseMove_dragging _ _ _ Hd).
  cbn [viewport setViewport dragStartRef setDragStartRef].
  fold dx dy. unfold pan.
  split; [| split; [| split]]; try reflexivity.
  - intros p. rewrite !toScreen_eq. cbn [x y vx vy scale].
    split; field; assumption.
  - unfold toWorld. cbn [vx vy scale]. unfold dx, dy.
    f_equal; field; assumption.
Qed.

Lemma drag_moves_picture_with_pointer_witness :
  let st := handleMouseDown 10 20 mountedState in
  x (toScreen canvas800 (viewport (handleMouseMove 15 26 st)) V2)
  = x (toScreen canvas800 (viewport st) V2) + (15 - x (dragStartRef st)).
Proof.
  intros st.
  assert (Hd : isDragging st = true) by reflexivity.
  assert (Hs : scale (viewport st) <> 0).
  { unfold st, handleMouseDown. rewrite mountedState_eq.
    cbn [viewport setDragStartRef setIsDragging scale]. lra. }
  apply (drag_moves_picture_with_pointer 15 26 st canvas800 Hd Hs).
Defined.

(** X13: mouse moves compose: two moves in a row leave the state that the
    second move alone would leave, whether or not a drag is in progress; a
    move back to the recorded drag position restores the viewport; after
    the button is released or the pointer leaves, a move changes
    nothing. *)
Theorem mouse_moves_compose (st : AppState) :
  (forall x1 y1 x2 y2,
      handleMouseMove x2 y2 (handleMouseMove x1 y1 st)
      = handleMouseMove x2 y2 st) /\
  (forall x1 y1,
      viewport
        (handleMouseMove (x (dragStartRef st)) (y (dragStartRef st))
           (handleMouseMove x1 y1 st))
      = viewport st) /\
  (forall x1 y1,
      handleMouseMove x1 y1 (handleMouseUp st) = handleMouseUp st /\
      handleMouseMove x1 y1 (handleMouseLeave st) = handleMouseLeave st).
Proof.
  assert (Hcomp : forall x1 y1 x2 y2,
             handleMouseMove x2 y2 (handleMouseMove x1 y1 st)
             = handleMouseMove x2 y2 st).
  { intros x1 y1 x2 y2.
    destruct st as [cv ps cur vp dr ds ppc am ig an hl tr tm nt g spc].
    unfold handleMouseMove. cbn [isDragging].
    destruct dr; cbn [negb]; [| reflexivity].
    unfold setViewport, setDragStartRef. fields. cbn [negb].
    unfold setViewport, setDragStartRef. fields.
    f_equal. unfold pan. cbn [vx vy scale x y].
    f_equal; unfold Rdiv; ring. }
  split; [exact Hcomp |]. split.
  - intros x1 y1. rewrite Hcomp.
    destruct st as [cv ps cur vp dr ds ppc am ig an hl tr tm nt g spc].
    unfold handleMouseMove. cbn [isDragging dragStartRef].
    destruct dr; cbn [negb]; [| reflexivity].
    unfold setViewport, setDragStartRef. fields.
    destruct vp as [vx0 vy0 s]. unfold pan. cbn [vx vy scale x y].
    f_equal; unfold Rdiv; ring.
  - intros x1 y1. split; reflexivity.
Qed.

(** ** The initial viewport shows the whole triangle *)

Lemma initial_scale_facts w h :
  0 < w -> 0 < h ->
  0 < scale (getInitialViewport w h) /\
  scale (getInitialViewport w h) * 1.1 <= w /\
  scale (getInitialViewport w h) * (sqrt075 * 1.1) <= h.
Proof.
  intros Hw Hh. split; [apply getInitialViewport_scale_pos; assumption |].
  rewrite getInitialViewport_eq. cbn [scale].
  pose proof sqrt075_pos as Hs.
  pose proof (Rmin_l (w / (1 * 1.1)) (h / (sqrt075 * 1.1))) as Hl.
  pose proof (Rmin_r (w / (1 * 1.1)) (h / (sqrt075 * 1.1))) as Hr.
  set (s := Rmin _ _) in *.
  assert (Ea : w / (1 * 1.1) * 1.1 = w) by (field; lra).
  assert (Eb : h / (sqrt075 * 1.1) * (sqrt075 * 1.1) = h) by (field; lra).
  set (a := w / (1 * 1.1)) in *. set (b := h / (sqrt075 * 1.1)) in *.
  split; nra.
Qed.

(** An assigned size between 0 and 2^31 is rounded down to an integer. *)
Lemma bitmapSize_floor default r :
  0 <= r < 2147483648 ->
  bitmapSize default r = IZR (Math_floor r) /\
  r - 1 < bitmapSize default r <= r.
Proof.
  intros [H0 H1].
  destruct (base_Int_part r) as [Hle Hgt].
  assert (Hlo : (-1 < Int_part r)%Z) by (apply lt_IZR; simpl; lra).
  assert (Hhi : (Int_part r < 2147483648)%Z) by (apply lt_IZR; simpl; lra).
  assert (E : bitmapSize default r = IZR (Int_part r)).
  { unfold bitmapSize, truncate.
    replace (ltb r 0) with false by (symmetry; apply ltb_false; lra).
    rewrite Z.mod_small by lia.
    destruct (Z.leb_spec (Int_part r) 2147483647) as [_ | Hbig];
      [reflexivity | lia]. }
  unfold Math_floor. rewrite E. repeat split; lra.
Qed.

(** The initial viewport of a layout size shows the triangle on a bitmap
    that is at most one eleventh smaller. *)
Lemma initial_viewport_shows p c w h :
  0 < w -> 0 < h -> w <= 1.1 * width c -> h <= 1.1 * height c ->
  inside p ->
  let v := getInitialViewport w h in
  inView c v p /\
  0 <= x (toScreen c v p) <= width c /\
  0 <= y (toScreen c v p) <= height c.
Proof.
  intros Hw Hh Hcw Hch Hin v.
  destruct (inside_bbox p Hin) as [Hx Hy].
  destruct (initial_scale_facts w h Hw Hh) as (Hs & Hsw & Hsh).
  fold v in Hs, Hsw, Hsh.
  pose proof sqrt075_pos as Hq.
  assert (Evx : vx v = 0.5) by reflexivity.
  assert (Evy : vy v = sqrt075 / 2) by reflexivity.
  unfold inView. rewrite toScreen_eq. cbn [x y]. rewrite Evx, Evy.
  assert (EW : width c / scale v * scale v = width c) by (field; lra).
  assert (EH : height c / scale v * scale v = height c) by (field; lra).
  set (s := scale v) in *. set (W := width c / s) in *.
  set (H := height c / s) in *.
  assert (HW : 1 <= W) by nra.
  assert (HH : sqrt075 <= H) by nra.
  repeat split; nra.
Qed.

(** X14: when the canvas is laid out before any point was generated, the
    resize effect sets the bitmap to the layout size rounded down to
    integers and installs the initial viewport of the layout size itself.
    For a layout of at least 11 pixels each way (and below 2^31) every
    point of the triangle is then painted inside the canvas and lies in
    the visible world rectangle that [findSeedPoint] uses.  For a small
    fractional layout this fails: at 1.5 x 1.5 the bitmap is 1 x 1 and the
    vertex (0, 0) is outside the visible rectangle. *)
Theorem resize_shows_whole_triangle (left top w h : R) (st : AppState)
  (c0 : Canvas) (Hc : canvas st = Some c0) (Hp : points st = [])
  (Hw : 11 <= w < 2147483648) (Hh : 11 <= h < 2147483648) :
  let st' := onResize left top w h st in
  let small := onResize left top 1.5 1.5 st in
  (exists c,
      canvas st' = Some c /\
      width c = IZR (Math_floor w) /\ height c = IZR (Math_floor h) /\
      viewport st' = getInitialViewport w h /\
      forall p, inside p ->
        inView c (viewport st') p /\
        0 <= x (toScreen c (viewport st') p) <= width c /\
        0 <= y (toScreen c (viewport st') p) <= height c) /\
  (exists c,
      canvas small = Some c /\ width c = 1 /\ height c = 1 /\
      viewport small = getInitialViewport 1.5 1.5 /\
      ~ inView c (viewport small) V0).
Proof.
  intros st' small. split.
  - unfold st', onResize. rewrite Hc.
    assert (Hpos : gtb w 0 && gtb h 0 = true).
    { apply andb_true_iff. split; apply gtb_true; lra. }
    rewrite Hpos. unfold setupCanvas. cbn [points setCanvas]. rewrite Hp.
    cbn [length Nat.eqb]. fields.
    destruct (bitmapSize_floor 300 w) as [Ew Bw]; [lra |].
    destruct (bitmapSize_floor 150 h) as [Eh Bh]; [lra |].
    eexists. split; [reflexivity |]. cbn [width height].
    split; [exact Ew |]. split; [exact Eh |]. split; [reflexivity |].
    intros p Hin.
    match goal with
    | |- inView ?c _ _ /\ _ =>
        apply (initial_viewport_shows p c w h);
          cbn [width height]; try assumption; lra
    end.
  - unfold small, onResize. rewrite Hc.
    assert (Hpos : gtb 1.5 0 && gtb 1.5 0 = true).
    { apply andb_true_iff. split; apply gtb_true; lra. }
    rewrite Hpos. unfold setupCanvas. cbn [points setCanvas]. rewrite Hp.
    cbn [length Nat.eqb]. fields.
    assert (E1 : forall d, bitmapSize d 1.5 = 1).
    { intros d. destruct (bitmapSize_floor d 1.5) as [E _]; [lra |].
      rewrite E. unfold Math_floor.
      rewrite <- (Int_part_spec 1.5 1) by (simpl; lra). reflexivity. }
    eexists. split; [reflexivity |]. cbn [width height].
    split; [apply E1 |]. split; [apply E1 |]. split; [reflexivity |].
    destruct (initial_scale_facts 1.5 1.5) as (Hs & Hsw & _); [lra | lra |].
    assert (Hbig : 1.1 < scale (getInitialViewport 1.5 1.5)).
    { rewrite getInitialViewport_eq. cbn [scale].
      pose proof sqrt075_bounds as Hq.
      apply Rmin_glb_lt.
      - apply Rmult_lt_reg_r with (1 * 1.1); [lra |].
        replace (1.5 / (1 * 1.1) * (1 * 1.1)) with 1.5 by (field; lra). lra.
      - apply Rmult_lt_reg_r with (sqrt075 * 1.1); [nra |].
        replace (1.5 / (sqrt075 * 1.1) * (sqrt075 * 1.1)) with 1.5
          by (field; lra).
        nra. }
    unfold inView. rewrite !E1. cbn [x y V0 width height].
    assert (Evx : vx (getInitialViewport 1.5 1.5) = 0.5) by reflexivity.
    rewrite Evx.
    set (s := scale (getInitialViewport 1.5 1.5)) in *.
    assert (EW : 1 / s * s = 1) by (field; lra).
    set (W := 1 / s) in *.
    intros [[Hl _] _]. nra.
Qed.

Lemma resize_shows_whole_triangle_witness :
  exists c,
    canvas (onResize 0 0 800.5 600 mountedState) = Some c /\
    width c = IZR (Math_floor 800.5) /\
    inView c (viewport (onResize 0 0 800.5 600 mountedState)) V2.
Proof.
  assert (Hc : canvas mountedState = Some canvas800)
    by (rewrite mountedState_eq; reflexivity).
  assert (Hp : points mountedState = [])
    by (rewrite mountedState_eq; reflexivity).
  assert (Hw : 11 <= 800.5 < 2147483648) by lra.
  assert (Hh : 11 <= 600 < 2147483648) by lra.
  destruct (resize_shows_whole_triangle 0 0 800.5 600 mountedState canvas800
              Hc Hp Hw Hh) as ((c & H1 & H2 & _ & _ & Hall) & _).
  exists c. split; [exact H1 |]. split; [exact H2 |].
  apply Hall. apply vertex_inside. right; right; reflexivity.
Defined.

(** ** What is painted *)

(** X15: with a canvas and a positive scale the drawing effect paints the
    background over the whole bitmap, then one white square per collected
    point, in collection order, then the vertices (only below scale 2000),
    the highlights and the three shapes of the snapshot.  The square of a
    point is centred where the point is painted and measures 1.25 pixels
    on the screen at every zoom level. *)
Theorem draw_paints_points (st : AppState) (c : Canvas)
  (Hc : canvas st = Some c) (Hs : 0 < scale (viewport st)) :
  exists shapes,
    draw st = Some shapes /\
    length shapes
    = (1 + length (points st)
       + (if ltb (scale (viewport st)) 2000 then 3 else 0)
       + length (highlightedVertices st)
       + match animationStep st with Some _ => 3 | None => 0 end)%nat /\
    nth_error shapes 0
    = Some (mkPainted identityMatrix "#0f172a"
              (FillRect 0 0 (width c) (height c))) /\
    forall k p, nth_error (points st) k = Some p ->
      exists rx ry size,
        nth_error shapes (S k)
        = Some (mkPainted (viewMatrix c (viewport st)) "#FFFFFF"
                  (FillRect rx ry size size)) /\
        rectCentre (viewMatrix c (viewport st)) rx ry size size
        = toScreen c (viewport st) p /\
        ma (viewMatrix c (viewport st)) * size = 1.25 /\
        md (viewMatrix c (viewport st)) * size = - 1.25 /\
        mb (viewMatrix c (viewport st)) = 0 /\
        mc (viewMatrix c (viewport st)) = 0.
Proof.
  unfold draw. rewrite Hc.
  assert (Hle : leb (scale (viewport st)) 0 = false)
    by (apply leb_false; assumption).
  rewrite Hle. cbv zeta.
  eexists. split; [reflexivity |]. split; [| split].
  - cbn [length]. rewrite !length_app, !length_map.
    destruct (ltb (scale (viewport st)) 2000);
      destruct (animationStep st); cbn [length map]; lia.
  - reflexivity.
  - intros k p Hk.
    exists (x p - 1.25 / scale (viewport st) / 2),
           (y p - 1.25 / scale (viewport st) / 2),
           (1.25 / scale (viewport st)).
    split.
    + cbn [nth_error]. rewrite nth_error_app1.
      * rewrite nth_error_map, Hk. reflexivity.
      * rewrite length_map. apply nth_error_Some. congruence.
    + unfold rectCentre, toScreen. rewrite viewMatrix_eq.
      cbn [ma mb mc md].
      replace 1.25 with (5 / 4) by lra.
      split; [| split; [| split; [| split]]].
      * f_equal. destruct p as [px py]. cbn [x y]. f_equal; field; lra.
      * field; lra.
      * replace (-1.25) with (- (5 / 4)) by lra. field; lra.
      * reflexivity.
      * reflexivity.
Qed.

Lemma draw_paints_points_witness :
  exists shapes,
    draw mountedState = Some shapes /\ length shapes = 4%nat.
Proof.
  assert (Hc : canvas mountedState = Some canvas800)
    by (rewrite mountedState_eq; reflexivity).
  assert (Hs : 0 < scale (viewport mountedState))
    by (rewrite mountedState_eq; cbn [viewport scale]; lra).
  destruct (draw_paints_points mountedState canvas800 Hc Hs)
    as (shapes & Hd & Hlen & _).
  exists shapes. split; [exact Hd |]. rewrite Hlen.
  rewrite mountedState_eq.
  cbn [points viewport scale highlightedVertices animationStep length].
  assert (Hlt : ltb 1 2000 = true) by (apply ltb_true; lra).
  rewrite Hlt. reflexivity.
Defined.

(** ** Degenerate triangles *)


(** ** More on seeds *)



(** X20: while the point collection is empty the current point is not
    used: [findSeedPoint] returns the same seed whatever point it is given.
    In particular the random point that [reset] stores in
    [currentPointRef] is discarded by the next generation. *)
Theorem empty_collection_ignores_current (st : AppState)
  (Hp : points st = []) :
  (forall current current' g,
      findSeedPoint current st g = findSeedPoint current' st g) /\
  (forall s current current' g,
      findSeedPoint current (reset s) g
      = findSeedPoint current' (reset s) g).
Proof.
  assert (H : forall s, points s = [] -> forall current current' g,
            findSeedPoint current s g = findSeedPoint current' s g).
  { intros s Hs current current' g. unfold findSeedPoint.
    destruct (canvas s) as [c |]; [| reflexivity].
    assert (Hn : forall q, needsSeed q c s = true)
      by (intros q; apply needsSeed_true; left; assumption).
    rewrite !Hn. reflexivity. }
  split; [apply H; assumption |].
  intros s. apply H. unfold reset. rewrite resetState_eq. reflexivity.
Qed.

Lemma empty_collection_ignores_current_witness :
  findSeedPoint V0 mountedState zeroRng
  = findSeedPoint V1 mountedState zeroRng.
Proof.
  assert (Hp : points mountedState = [])
    by (rewrite mountedState_eq; reflexivity).
  apply (empty_collection_ignores_current mountedState Hp).
Defined.

Lemma candidate_zero_size c v g i :
  width c = 0 -> height c = 0 ->
  candidate c v g i = mkPoint (vx v) (vy v).
Proof.
  intros Hw Hh. unfold candidate, tried. rewrite Hw, Hh.
  f_equal; unfold Rdiv; ring.
Qed.

(** X21: on a canvas whose bitmap has size 0 x 0 the visible rectangle is
    the single point at the viewport centre, so a search for a seed is not
    random there: it returns the viewport centre after two draws when the
    centre is in the triangle, and the barycentric sample after 202 draws
    when it is not. *)
Theorem zero_size_canvas_seed (current : Point) (st : AppState) (c : Canvas)
  (g : Rng) (Hc : canvas st = Some c) (Hw : width c = 0)
  (Hh : height c = 0) (Hneed : needsSeed current c st = true) :
  let centre := mkPoint (vx (viewport st)) (vy (viewport st)) in
  findSeedPoint current st g
  = if isPointInTriangle centre VERTICES
    then (centre, advance 2 g)
    else (fallbackPoint (advance 200 g), advance 202 g).
Proof.
  intros centre.
  assert (Hcand : forall i, candidate c (viewport st) g i = centre)
    by (intros i; apply candidate_zero_size; assumption).
  destruct (findSeedPoint_triggered current st c g Hc Hneed)
    as [(i & Hi & Hrej & Hok & Hres) | [Hrej Hres]]; rewrite Hres.
  - rewrite Hcand in Hok. rewrite Hok, Hcand.
    destruct i as [| i]; [reflexivity |].
    specialize (Hrej 0%nat (Nat.lt_0_succ i)).
    rewrite Hcand in Hrej. congruence.
  - specialize (Hrej 0%nat). rewrite Hcand in Hrej.
    rewrite Hrej by lia. reflexivity.
Qed.

Lemma zero_size_canvas_seed_witness :
  let st := initialState (Some (mkCanvas 0 0 0 0 0 0)) zeroRng in
  findSeedPoint V0 st zeroRng
  = if isPointInTriangle
         (mkPoint (vx (viewport st)) (vy (viewport st))) VERTICES
    then (mkPoint (vx (viewport st)) (vy (viewport st)), advance 2 zeroRng)
    else (fallbackPoint (advance 200 zeroRng), advance 202 zeroRng).
Proof.
  intros st.
  assert (Hc : canvas st = Some (mkCanvas 0 0 0 0 0 0))
    by (unfold st; rewrite initialState_eq; reflexivity).
  assert (Hneed : needsSeed V0 (mkCanvas 0 0 0 0 0 0) st = true).
  { apply needsSeed_true. left. unfold st. rewrite initialState_eq.
    reflexivity. }
  apply (zero_size_canvas_seed V0 st (mkCanvas 0 0 0 0 0 0) zeroRng Hc
           eq_refl eq_refl Hneed).
Defined.

(** ** Controls during a run *)

Lemma step_controls count localCurrent st st' :
  step count localCurrent st = Some st' ->
  isAnimationMode st' = isAnimationMode st /\
  pointsPerClick st' = pointsPerClick st.
Proof.
  unfold step. destruct (100 <=? count)%nat.
  - intros [= <-]. split; reflexivity.
  - destruct (chaosStep localCurrent (rng st)) as [[[target next] |] g'];
      [| discriminate].
    intros [= <-]. split; reflexivity.
Qed.

(** X22: while the component is generating, no event changes the mode or
    the amount, and the generate button does nothing: every event that is
    handled leaves [isAnimationMode] and [pointsPerClick] as they were,
    and the events of the two controls and of the button are not
    handled. *)
Theorem controls_frozen_while_generating (e : Event) (st : AppState)
  (Hgen : isGenerating st = true) :
  (forall st', handle e st = Some st' ->
     isAnimationMode st' = isAnimationMode st /\
     pointsPerClick st' = pointsPerClick st) /\
  handle ClickGenerate st = None /\
  handle ToggleMode st = None /\
  (forall n, handle (ChooseAmount n) st = None).
Proof.
  split; [| split; [| split]].
  - intros st' Hh. destruct e; cbn [handle] in Hh;
      try (injection Hh as <-).
    + unfold handleWheel. destruct (canvas st); split; reflexivity.
    + split; reflexivity.
    + split; reflexivity.
    + split; reflexivity.
    + unfold handleMouseMove. destruct (isDragging st); split; reflexivity.
    + unfold onResize. destruct (canvas st) as [c |]; [| split; reflexivity].
      destruct (gtb w 0 && gtb h 0); [| split; reflexivity].
      unfold setupCanvas. cbn [points setCanvas].
      destruct (length (points st) =? 0)%nat; split; reflexivity.
    + rewrite Hgen in Hh. discriminate.
    + rewrite Hgen, orb_true_r in Hh. discriminate.
    + rewrite Hgen in Hh. discriminate.
    + unfold reset. rewrite resetState_eq. cbn [isAnimationMode pointsPerClick].
      unfold cancel. destruct (animationTimeoutRef st) as [id |];
        [destruct (Nat.eqb id 0) |]; split; reflexivity.
    + unfold fireTimer in Hh.
      destruct (find _ (timers st)) as [t |]; [| discriminate].
      apply step_controls in Hh. exact Hh.
    + rewrite render_eq. split; reflexivity.
  - cbn [handle]. rewrite Hgen. reflexivity.
  - cbn [handle]. rewrite Hgen. reflexivity.
  - intros n. cbn [handle]. rewrite Hgen, orb_true_r. reflexivity.
Qed.

Lemma controls_frozen_while_generating_witness :
  handle ClickGenerate animatingState = None /\
  handle ToggleMode animatingState = None.
Proof.
  destruct (controls_frozen_while_generating Reset animatingState eq_refl)
    as (_ & H1 & H2 & _).
  split; assumption.
Defined.

(** ** Renders *)


